(** * booster: package [store] — the [SourceStore]

    A shallow embedding of [store/store.go].  A [SourceStore] sits in
    front of a protected [Store], keeps an ordered list of policies and
    an optional bind history, and hands out one source per request.

    Conventions of the embedding:
    - a method with receiver [ss *SourceStore] becomes a function that
      takes the store state [ss] last and returns its results together
      with the state it leaves behind;
    - calls that leave the [SourceStore] (into the protected storage,
      into a policy's [Accept], into the resolver) are logged as
      [Event]s, in program order, so that statements such as
      "without enumerating the sources" can be phrased;
    - a nil slice or nil map is [None], an allocated one is [Some];
    - the collaborators (protected storage, policies, resolver) are
      total functions: a lookup that runs into its deadline returns
      an error, as [net.Resolver] does;
    - the mutexes only delimit critical sections; every method is
      modelled as one atomic step. *)

From stdpp Require Import gmap strings list fin_maps.
From Stdlib Require Import ZArith Ascii.

Local Open Scope string_scope.
Local Open Scope Z_scope.
Local Open Scope list_scope.

(** ** Collaborators *)

(** [context.Context], reduced to what the store uses of it: the time
    left before the deadline, in nanoseconds ([None]: no deadline). *)
Record Ctx : Type := MkCtx { ctx_deadline : option Z }.

(** [time.Second], a [time.Duration] in nanoseconds. *)
Definition Second : Z := 1000000000.

(** [context.WithTimeout(parent, d)]: the child expires after [d], or
    with the parent if that happens earlier. *)
Definition WithTimeout (parent : Ctx) (d : Z) : Ctx :=
  MkCtx (Some (match ctx_deadline parent with
               | Some t => Z.min t d
               | None => d
               end)).

(** [type Policy interface { ID() string; Accept(id, address string) bool }] *)
Record Policy : Type := MkPolicy {
  ID : string;
  Accept : string -> string -> bool
}.

(** The package-level [Resolver]: both lookups return a slice and an
    error, as [net.Resolver] does. *)
Record ResolverT (RErr : Type) : Type := MkResolver {
  LookupAddr : Ctx -> string -> list string * option RErr;
  LookupHost : Ctx -> string -> list string * option RErr
}.
Arguments MkResolver {RErr} _ _.
Arguments LookupAddr {RErr} _ _ _.
Arguments LookupHost {RErr} _ _ _.

(** [type Store interface]: the protected storage, over its own state
    [PS].  [Get] may update that state (a strategy usually does);
    [Len] and [Do] only read it, [Store_Do] listing the sources in the
    order in which [Do] visits them. *)
Class Store (Source Err PS : Type) : Type := MkStore {
  Store_Put : list Source -> PS -> PS;
  Store_Del : list Source -> PS -> PS;
  Store_Get : Ctx -> list Source -> PS -> (option Source * option Err) * PS;
  Store_Len : PS -> nat;
  Store_Do : PS -> list Source
}.

(** The errors built with [fmt.Errorf] in this file. *)
Inductive error : Type :=
| ErrPolicyPresent (id : string)
| ErrNoPoliciesStored
| ErrNoPolicyFound (id : string).

(** The message each of them carries. *)
Definition Error (e : error) : string :=
  match e with
  | ErrPolicyPresent id =>
      "source store: a policy with identifier " +:+ id +:+ " is already present"
  | ErrNoPoliciesStored => "source store: no policies stored"
  | ErrNoPolicyFound id => "source store: no " +:+ id +:+ " policy found"
  end.

(** The two kinds of failure of policy management: registering an
    identifier twice, and removing one that is not there (from a list
    with other policies, or from no list at all). *)
Definition DuplicatePolicy (e : error) : bool :=
  match e with
  | ErrPolicyPresent _ => true
  | _ => false
  end.

Definition PolicyNotFound (e : error) : bool :=
  match e with
  | ErrNoPoliciesStored | ErrNoPolicyFound _ => true
  | _ => false
  end.

(** [type DummySource struct { ID string }] *)
Record DummySource : Type := MkDummySource { DummySource_ID : string }.

(** [core.Source], of which the store only calls [ID()]. *)
Class SourceAPI (Source : Type) : Type := MkSourceAPI {
  SourceID : Source -> string
}.

(** The two functions the store calls and this file does not define:
    [TrimPort], declared elsewhere in the package, and the test
    [net.ParseIP(address) != nil] of the standard library. *)
Class Net : Type := MkNet {
  TrimPort : string -> string;
  ParseIP : string -> bool
}.

Section SourceStore.

Context {Source Err RErr PS : Type}.
Context `{!Store Source Err PS} `{!SourceAPI Source} `{!Net}.

(** ** State *)

Record SourceStore : Type := MkSourceStore {
  protected : PS;
  policies_val : option (list Policy);
  bindHistory_record : bool;
  bindHistory_val : option (gmap string string)
}.

(** Calls that leave the [SourceStore]. *)
Inductive Event : Type :=
| EvPut (sources : list Source)
| EvDel (sources : list Source)
| EvGet (ctx : Ctx) (blacklisted : list Source)
| EvLen
| EvDo
| EvAccept (p : Policy) (id address : string)
| EvLookupAddr (ctx : Ctx) (address : string)
| EvLookupHost (ctx : Ctx) (host : string).

Definition set_protected (ps : PS) (ss : SourceStore) : SourceStore :=
  MkSourceStore ps (policies_val ss) (bindHistory_record ss) (bindHistory_val ss).

Definition set_policies (val : option (list Policy)) (ss : SourceStore) : SourceStore :=
  MkSourceStore (protected ss) val (bindHistory_record ss) (bindHistory_val ss).

Definition set_bindHistory (record : bool) (val : option (gmap string string))
    (ss : SourceStore) : SourceStore :=
  MkSourceStore (protected ss) (policies_val ss) record val.

(** The policies a nil or allocated slice ranges over. *)
Definition policies (ss : SourceStore) : list Policy :=
  default [] (policies_val ss).

(** The contents of the bind history; a nil map reads as empty. *)
Definition table (ss : SourceStore) : gmap string string :=
  default ∅ (bindHistory_val ss).

(** ** Methods *)

Definition New (store : PS) : SourceStore :=
  MkSourceStore store None false None.

(** [Len] and [Do] forward to the protected storage.  The visitor [f]
    is a closure; what it accumulates is threaded as [a]. *)
Definition Len (ss : SourceStore) : nat * list Event :=
  (Store_Len (protected ss), [EvLen]).

Definition Do {A : Type} (f : Source -> A -> A) (a : A) (ss : SourceStore)
    : A * list Event :=
  (fold_left (fun acc src => f src acc) (Store_Do (protected ss)) a, [EvDo]).

(** The loop of [ShouldAccept] over [ss.policies.val]. *)
Fixpoint ShouldAccept_range (id address : string) (val : list Policy)
    : (bool * option Policy) * list Event :=
  match val with
  | [] => ((true, None), [])
  | p :: rest =>
      let ok := Accept p id address in
      if negb ok then ((ok, Some p), [EvAccept p id address])
      else
        let '(r, evs) := ShouldAccept_range id address rest in
        (r, EvAccept p id address :: evs)
  end.

Definition ShouldAccept (id address : string) (ss : SourceStore)
    : (bool * option Policy) * list Event :=
  match policies_val ss with
  | None => ((true, None), [])
  | Some val =>
      let address := TrimPort address in
      ShouldAccept_range id address val
  end.

(** The closure handed to [Do] by [MakeBlacklist]; it captures
    [address], [ss] and the accumulator [acc]. *)
Definition MakeBlacklist_visit (address : string) (ss : SourceStore)
    (src : Source) (st : list Source * list Event) : list Source * list Event :=
  let '(acc, evs) := st in
  let '((ok, _), e) := ShouldAccept (SourceID src) address ss in
  if negb ok then (acc ++ [src], evs ++ e) else (acc, evs ++ e).

Definition MakeBlacklist (address : string) (ss : SourceStore)
    : list Source * list Event :=
  let '(_, ev0) := Len ss in
  let acc : list Source := [] in
  let l := length (policies ss) in
  if Nat.eqb l 0 then (acc, ev0)
  else
    let address := TrimPort address in
    let '((acc, evs), ev1) := Do (MakeBlacklist_visit address ss) (acc, []) ss in
    (acc, ev0 ++ ev1 ++ evs).

Definition RecordBindHistory (ss : SourceStore) : SourceStore :=
  set_bindHistory true (Some ∅) ss.

Definition StopRecordingBindHistory (ss : SourceStore) : SourceStore :=
  set_bindHistory false None ss.

Definition QueryBindHistory (address : string) (ss : SourceStore) : string * bool :=
  match bindHistory_val ss with
  | None => ("", false)
  | Some val =>
      match val !! address with
      | Some src => (src, true)
      | None => ("", false)
      end
  end.

(** The [for _, v := range addrs] loop of [SaveBindHistory]. *)
Definition bind_all (id : string) (addrs : list string) (val : gmap string string)
    : gmap string string :=
  fold_left (fun m v => <[v := id]> m) addrs val.

Definition SaveBindHistory (R : ResolverT RErr) (ctx : Ctx) (id address : string)
    (ss : SourceStore) : SourceStore * list Event :=
  if negb (bindHistory_record ss) then (ss, [])
  else
    let val := match bindHistory_val ss with
               | None => ∅
               | Some val => val
               end in
    let ss := set_bindHistory (bindHistory_record ss) (Some val) ss in
    let host := address in
    let resolved : option string * list Event :=
      if ParseIP address then
        let '(hosts, err) := LookupAddr R ctx address in
        match err with
        | Some _ => (None, [EvLookupAddr ctx address])
        | None =>
            match hosts with
            | [] => (None, [EvLookupAddr ctx address])
            | h :: _ => (Some h, [EvLookupAddr ctx address])
            end
        end
      else (Some host, []) in
    match resolved with
    | (None, evs) => (ss, evs)
    | (Some host, evs) =>
        let '(addrs, err) := LookupHost R ctx host in
        match err with
        | Some _ => (ss, evs ++ [EvLookupHost ctx host])
        | None =>
            (set_bindHistory (bindHistory_record ss) (Some (bind_all id addrs val)) ss,
             evs ++ [EvLookupHost ctx host])
        end
    end.

(** What a call of [Get] comes to: it returns, or it panics on
    [src.ID()] when the protected storage hands back a nil source
    together with a nil error. *)
Inductive GetResult : Type :=
| Returned (src : option Source) (err : option Err)
| Panicked.

Definition Get (R : ResolverT RErr) (ctx : Ctx) (address : string)
    (blacklisted : list Source) (ss : SourceStore)
    : GetResult * SourceStore * list Event :=
  let address := TrimPort address in
  let '(policy_blacklist, ev0) := MakeBlacklist address ss in
  let blacklisted := blacklisted ++ policy_blacklist in
  let '((src, err), ps) := Store_Get ctx blacklisted (protected ss) in
  let ss := set_protected ps ss in
  let ev1 := ev0 ++ [EvGet ctx blacklisted] in
  match err with
  | Some _ => (Returned src err, ss, ev1)
  | None =>
      let ctx := WithTimeout ctx Second in
      match src with
      | None => (Panicked, ss, ev1)
      | Some s =>
          let '(ss, ev2) := SaveBindHistory R ctx (SourceID s) address ss in
          (Returned src None, ss, ev1 ++ ev2)
      end
  end.

(** The duplicate check of [AppendPolicy]: the first stored policy
    with the identifier of [p]. *)
Definition find_policy (id : string) (val : list Policy) : option Policy :=
  List.find (fun v => String.eqb (ID v) id) val.

Definition AppendPolicy (p : Policy) (ss : SourceStore)
    : option error * SourceStore * list Event :=
  let val := match policies_val ss with
             | None => []
             | Some val => val
             end in
  let ss := set_policies (Some val) ss in
  match find_policy (ID p) val with
  | Some v => (Some (ErrPolicyPresent (ID v)), ss, [])
  | None =>
      let ss := set_policies (Some (val ++ [p])) ss in
      let ss := if String.eqb (ID p) "stick" then RecordBindHistory ss else ss in
      (None, ss, [])
  end.

(** The search loop of [DelPolicy]: the index [j] of the first policy
    with identifier [id], if [found]. *)
Fixpoint index_policy (id : string) (val : list Policy) : option nat :=
  match val with
  | [] => None
  | v :: rest =>
      if String.eqb (ID v) id then Some O
      else option_map S (index_policy id rest)
  end.

Definition DelPolicy (id : string) (ss : SourceStore)
    : option error * SourceStore * list Event :=
  match policies_val ss with
  | None => (Some ErrNoPoliciesStored, ss, [])
  | Some val =>
      match index_policy id val with
      | None => (Some (ErrNoPolicyFound id), ss, [])
      | Some j =>
          let ss := set_policies (Some (take j val ++ drop (S j) val)) ss in
          let ss := if String.eqb id "stick" then StopRecordingBindHistory ss else ss in
          (None, ss, [])
      end
  end.

Definition Put (sources : list Source) (ss : SourceStore) : SourceStore * list Event :=
  (set_protected (Store_Put sources (protected ss)) ss, [EvPut sources]).

Definition Del (sources : list Source) (ss : SourceStore) : SourceStore * list Event :=
  (set_protected (Store_Del sources (protected ss)) ss, [EvDel sources]).

Definition GetPoliciesSnapshot (ss : SourceStore) : list Policy :=
  policies ss.

(** The closure handed to [Do] by [GetSourcesSnapshot]. *)
Definition GetSourcesSnapshot_visit (src : Source) (acc : list DummySource)
    : list DummySource :=
  acc ++ [MkDummySource (SourceID src)].

Definition GetSourcesSnapshot (ss : SourceStore) : list DummySource * list Event :=
  let acc : list DummySource := [] in
  (fold_left (fun acc src => GetSourcesSnapshot_visit src acc)
     (Store_Do (protected ss)) acc,
   [EvLen; EvDo]).

(** ** The store as a transition system *)

(** One constructor per method of [*SourceStore]. *)
Inductive Op : Type :=
| OpGet (R : ResolverT RErr) (ctx : Ctx) (address : string) (blacklisted : list Source)
| OpSaveBindHistory (R : ResolverT RErr) (ctx : Ctx) (id address : string)
| OpShouldAccept (id address : string)
| OpMakeBlacklist (address : string)
| OpLen
| OpDo
| OpAppendPolicy (p : Policy)
| OpDelPolicy (id : string)
| OpPut (sources : list Source)
| OpDel (sources : list Source)
| OpGetPoliciesSnapshot
| OpGetSourcesSnapshot
| OpRecordBindHistory
| OpStopRecordingBindHistory
| OpQueryBindHistory (address : string).

(** The state a method leaves behind. *)
Definition exec (op : Op) (ss : SourceStore) : SourceStore :=
  match op with
  | OpGet R ctx address blacklisted => (Get R ctx address blacklisted ss).1.2
  | OpSaveBindHistory R ctx id address => (SaveBindHistory R ctx id address ss).1
  | OpAppendPolicy p => (AppendPolicy p ss).1.2
  | OpDelPolicy id => (DelPolicy id ss).1.2
  | OpPut sources => (Put sources ss).1
  | OpDel sources => (Del sources ss).1
  | OpRecordBindHistory => RecordBindHistory ss
  | OpStopRecordingBindHistory => StopRecordingBindHistory ss
  | OpShouldAccept _ _ | OpMakeBlacklist _ | OpLen | OpDo
  | OpGetPoliciesSnapshot | OpGetSourcesSnapshot | OpQueryBindHistory _ => ss
  end.

Definition run (ops : list Op) (ss : SourceStore) : SourceStore :=
  fold_left (fun st op => exec op st) ops ss.

(** "When [recording == false], the table is absent." *)
Definition history_inv (ss : SourceStore) : Prop :=
  bindHistory_record ss = false -> bindHistory_val ss = None.

(** ** Vocabulary of the statements *)

(** Some active policy rejects source [src] for [address]. *)
Definition rejected (address : string) (ss : SourceStore) (src : Source) : bool :=
  existsb (fun p => negb (Accept p (SourceID src) address)) (policies ss).

(** The sources of the protected storage that some active policy
    rejects for [address], in enumeration order. *)
Definition policy_forbidden (address : string) (ss : SourceStore) : list Source :=
  List.filter (rejected address ss) (Store_Do (protected ss)).

Definition is_lookup (e : Event) : bool :=
  match e with
  | EvLookupAddr _ _ | EvLookupHost _ _ => true
  | _ => false
  end.

(** The context a lookup was issued with. *)
Definition lookup_ctx (e : Event) : option Ctx :=
  match e with
  | EvLookupAddr ctx _ | EvLookupHost ctx _ => Some ctx
  | _ => None
  end.

(** A context that expires within [d] nanoseconds. *)
Definition expires_within (d : Z) (ctx : Ctx) : Prop :=
  exists t, ctx_deadline ctx = Some t /\ t <= d.

(** A recording detached from the call: [Get] comes back having issued
    no lookup and with the table as it found it. *)
Definition returns_before_recording (R : ResolverT RErr) (ctx : Ctx)
    (address : string) (blacklisted : list Source) (ss : SourceStore) : Prop :=
  let '(_, ss', evs) := Get R ctx address blacklisted ss in
  forallb (fun e => negb (is_lookup e)) evs = true /\ table ss' = table ss.

(** The recording step gave up: flag and table contents are as they
    were, and so is the whole store when its map was allocated. *)
Definition recording_aborted (ss ss' : SourceStore) : Prop :=
  bindHistory_record ss' = bindHistory_record ss
  /\ table ss' = table ss
  /\ (forall address, QueryBindHistory address ss' = QueryBindHistory address ss)
  /\ (bindHistory_val ss <> None -> ss' = ss).

(** The recording step bound [id] to each of [addrs], and to nothing
    else. *)
Definition recorded (id : string) (addrs : list string) (ss ss' : SourceStore) : Prop :=
  bindHistory_record ss' = bindHistory_record ss
  /\ table ss' = bind_all id addrs (table ss)
  /\ (forall v, v ∈ addrs -> QueryBindHistory v ss' = (id, true))
  /\ (forall v, v ∉ addrs -> QueryBindHistory v ss' = QueryBindHistory v ss).

(** No two policies of the list share an identifier. *)
Definition unique_ids (ss : SourceStore) : Prop :=
  NoDup (map ID (policies ss)).

(** Some policy of the list is named ["stick"]. *)
Definition has_stick (ss : SourceStore) : bool :=
  existsb (fun p => String.eqb (ID p) "stick") (policies ss).

(** The methods, sorted by the part of the store they may write. *)
Definition toggles_recording (op : Op) : bool :=
  match op with
  | OpRecordBindHistory | OpStopRecordingBindHistory => true
  | _ => false
  end.

Definition edits_policies (op : Op) : bool :=
  match op with
  | OpAppendPolicy _ | OpDelPolicy _ => true
  | _ => false
  end.

Definition writes_storage (op : Op) : bool :=
  match op with
  | OpGet _ _ _ _ | OpPut _ | OpDel _ => true
  | _ => false
  end.

Definition writes_history (op : Op) : bool :=
  match op with
  | OpGet _ _ _ _ | OpSaveBindHistory _ _ _ _
  | OpAppendPolicy _ | OpDelPolicy _
  | OpRecordBindHistory | OpStopRecordingBindHistory => true
  | _ => false
  end.

(** The calls of a blacklist sweep: [Len], [Do] and [Accept]. *)
Definition is_sweep_event (e : Event) : bool :=
  match e with
  | EvLen | EvDo | EvAccept _ _ _ => true
  | _ => false
  end.

(** The lookups a recording step can come to: none, a reverse one, a
    forward one, or a reverse one followed by a forward one. *)
Definition recording_trace (ctx : Ctx) (address : string) (evs : list Event) : Prop :=
  evs = []
  \/ evs = [EvLookupAddr ctx address]
  \/ evs = [EvLookupHost ctx address]
  \/ exists host, evs = [EvLookupAddr ctx address; EvLookupHost ctx host].

End SourceStore.

Arguments SourceStore : clear implicits.
Arguments Event : clear implicits.
Arguments GetResult : clear implicits.
Arguments Op : clear implicits.

(** ** Sample collaborators

    Small concrete instances of the interfaces above, on which the
    store can be run: sources are their identifiers, the storage is a
    list that hands out its first eligible source. *)

#[export] Instance string_source : SourceAPI string := MkSourceAPI string (fun s => s).

Fixpoint count_colons (s : string) : nat :=
  match s with
  | EmptyString => O
  | String c rest =>
      ((if Ascii.eqb c ":"%char then 1 else 0) + count_colons rest)%nat
  end.

Fixpoint before_colon (s : string) : string :=
  match s with
  | EmptyString => EmptyString
  | String c rest =>
      if Ascii.eqb c ":"%char then EmptyString else String c (before_colon rest)
  end.

(** A stand-in for [TrimPort] on addresses of the form [host:port]. *)
Definition host_of (address : string) : string :=
  if Nat.eqb (count_colons address) 1 then before_colon address else address.

Fixpoint dotted_digits (s : string) : bool :=
  match s with
  | EmptyString => true
  | String c rest =>
      (Ascii.eqb c "."%char
       || (Nat.leb 48 (Ascii.nat_of_ascii c) && Nat.leb (Ascii.nat_of_ascii c) 57))
      && dotted_digits rest
  end.

(** A stand-in for [net.ParseIP] on dotted IPv4 literals. *)
Definition dotted_ip (address : string) : bool :=
  negb (String.eqb address "") && dotted_digits address.

#[export] Instance sample_net : Net := MkNet host_of dotted_ip.

Definition listed (s : string) (l : list string) : bool :=
  existsb (String.eqb s) l.

#[export] Instance list_store : Store string string (list string) :=
  MkStore string string (list string)
    (fun sources ps => ps ++ sources)
    (fun sources ps => List.filter (fun s => negb (listed s sources)) ps)
    (fun _ blacklisted ps =>
       match List.find (fun s => negb (listed s blacklisted)) ps with
       | Some s => ((Some s, None), ps)
       | None => ((None, Some "no eligible source"), ps)
       end)
    (fun ps => length ps)
    (fun ps => ps).

(** A storage that hands back neither a source nor an error. *)
#[export] Instance empty_handed_store : Store string string unit :=
  MkStore string string unit
    (fun _ ps => ps)
    (fun _ ps => ps)
    (fun _ _ ps => ((None, None), ps))
    (fun _ => O)
    (fun _ => []).

(** A resolver that knows one service behind two addresses. *)
Definition sample_resolver : ResolverT string :=
  MkResolver
    (fun _ address =>
       if String.eqb address "10.0.0.1" then (["svc.example"], None)
       else ([], Some "no such host"))
    (fun _ host =>
       if String.eqb host "svc.example" then (["10.0.0.1"; "10.0.0.2"], None)
       else ([], Some "no such host")).

(** A resolver whose lookups all fail, as when the deadline passes. *)
Definition failing_resolver : ResolverT string :=
  MkResolver
    (fun _ _ => ([], Some "i/o timeout"))
    (fun _ _ => ([], Some "i/o timeout")).

(** Source ["A"] must not be used towards ["bank.example"]. *)
Definition block_policy : Policy :=
  MkPolicy "block"
    (fun id address => negb (String.eqb id "A" && String.eqb address "bank.example")).

Definition stick_policy : Policy :=
  MkPolicy "stick" (fun _ _ => true).

Definition background : Ctx := MkCtx None.

Definition allow_policy : Policy :=
  MkPolicy "allow" (fun _ _ => true).

(** Stores over the sources ["A"] and ["B"]: without policies, with
    the blocking policy, with the sticky policy, and with three
    policies. *)
Definition fresh_store : SourceStore (list string) := New ["A"; "B"].

Definition bank_store : SourceStore (list string) :=
  (AppendPolicy (Source := string) block_policy fresh_store).1.2.

Definition sticky_store : SourceStore (list string) :=
  (AppendPolicy (Source := string) stick_policy fresh_store).1.2.

Definition layered_store : SourceStore (list string) :=
  (AppendPolicy (Source := string) stick_policy
     (AppendPolicy (Source := string) block_policy
        (AppendPolicy (Source := string) allow_policy fresh_store).1.2).1.2).1.2.

(** * Properties *)

Section Properties.

Context {Source Err RErr PS : Type}.
Context `{!Store Source Err PS} `{!SourceAPI Source} `{!Net}.

Implicit Types (ss : SourceStore PS) (p q : Policy) (val : list Policy).
Implicit Types (id address host : string) (src : Source).

(** ** Policy evaluation *)

Lemma ShouldAccept_range_accepts id address val :
  (forall p, p ∈ val -> Accept p id address = true) ->
  ShouldAccept_range (Source := Source) id address val
  = ((true, None), map (fun p => EvAccept p id address) val).
Proof.
  induction val as [|p val IH]; intros Hall; simpl; [reflexivity|].
  rewrite (Hall p) by apply list_elem_of_here. simpl.
  rewrite IH; [reflexivity|].
  intros q Hq. apply Hall. by apply list_elem_of_further.
Qed.

Lemma ShouldAccept_range_rejects id address pre p post :
  (forall q, q ∈ pre -> Accept q id address = true) ->
  Accept p id address = false ->
  ShouldAccept_range (Source := Source) id address (pre ++ p :: post)
  = ((false, Some p), map (fun q => EvAccept q id address) (pre ++ [p])).
Proof.
  induction pre as [|q pre IH]; intros Hpre Hp; simpl.
  - by rewrite Hp.
  - rewrite (Hpre q) by apply list_elem_of_here. simpl.
    rewrite IH; [reflexivity| |assumption].
    intros r Hr. apply Hpre. by apply list_elem_of_further.
Qed.

(** Either every policy accepts, or the list splits at its first
    rejecting policy. *)
Lemma first_rejecting id address val :
  (forall p, p ∈ val -> Accept p id address = true)
  \/ (exists pre p post, val = pre ++ p :: post
        /\ (forall q, q ∈ pre -> Accept q id address = true)
        /\ Accept p id address = false).
Proof.
  induction val as [|p val IH].
  - left. intros p Hp. by apply elem_of_nil in Hp.
  - destruct (Accept p id address) eqn:Hp.
    + destruct IH as [Hall | (pre & r & post & -> & Hpre & Hr)].
      * left. intros q Hq. apply elem_of_cons in Hq as [-> | Hq]; auto.
      * right. exists (p :: pre), r, post. split; [reflexivity|].
        split; [|assumption].
        intros q Hq. apply elem_of_cons in Hq as [-> | Hq]; auto.
    + right. exists [], p, val. split; [reflexivity|].
      split; [|assumption].
      intros q Hq. by apply elem_of_nil in Hq.
Qed.

Lemma ShouldAccept_range_ok id address val :
  (ShouldAccept_range (Source := Source) id address val).1.1
  = forallb (fun p => Accept p id address) val.
Proof.
  induction val as [|p val IH]; simpl; [reflexivity|].
  destruct (Accept p id address); simpl; [|reflexivity].
  destruct (ShouldAccept_range id address val) as [r evs]. exact IH.
Qed.

Lemma ShouldAccept_policies id address ss :
  ShouldAccept (Source := Source) id address ss
  = match policies_val ss with
    | None => ((true, None), [])
    | Some _ => ShouldAccept_range id (TrimPort address) (policies ss)
    end.
Proof. unfold ShouldAccept, policies. by destruct (policies_val ss). Qed.

Lemma ShouldAccept_ok id address ss :
  (ShouldAccept (Source := Source) id address ss).1.1
  = forallb (fun p => Accept p id (TrimPort address)) (policies ss).
Proof.
  unfold ShouldAccept, policies.
  destruct (policies_val ss) as [val|]; simpl; [|reflexivity].
  apply ShouldAccept_range_ok.
Qed.

(** C9. [ShouldAccept(id, address)] strips the port once and walks the
    policies in insertion order.  It answers [(true, nil)] exactly when
    every policy accepts the pair, in particular on a nil or empty
    list; otherwise it answers [false] with the first policy that
    rejects, and the calls to [Accept] it made are those of the
    policies up to and including that one, in order, and no later
    one. *)
Theorem ShouldAccept_short_circuit id address ss :
  let a := TrimPort address in
  let called := fun val => map (fun p => EvAccept (Source := Source) p id a) val in
  ((ShouldAccept (Source := Source) id address ss).1 = (true, None)
     <-> (forall p, p ∈ policies ss -> Accept p id a = true))
  /\ (policies ss = [] -> ShouldAccept (Source := Source) id address ss = ((true, None), []))
  /\ ((forall p, p ∈ policies ss -> Accept p id a = true) ->
      ShouldAccept id address ss = ((true, None), called (policies ss)))
  /\ (forall pre p post,
        policies ss = pre ++ p :: post ->
        (forall q, q ∈ pre -> Accept q id a = true) ->
        Accept p id a = false ->
        ShouldAccept id address ss = ((false, Some p), called (pre ++ [p])))
  /\ ((forall p, p ∈ policies ss -> Accept p id a = true)
      \/ (exists pre p post, policies ss = pre ++ p :: post
            /\ (forall q, q ∈ pre -> Accept q id a = true)
            /\ Accept p id a = false)).
Proof.
  intros a called.
  assert (Hall : (forall p, p ∈ policies ss -> Accept p id a = true) ->
                 ShouldAccept id address ss = ((true, None), called (policies ss))).
  { intros H0. rewrite ShouldAccept_policies.
    destruct (policies_val ss) as [val|] eqn:Hval.
    - by apply ShouldAccept_range_accepts.
    - unfold policies. by rewrite Hval. }
  assert (Hrej : forall pre p post,
        policies ss = pre ++ p :: post ->
        (forall q, q ∈ pre -> Accept q id a = true) ->
        Accept p id a = false ->
        ShouldAccept id address ss = ((false, Some p), called (pre ++ [p]))).
  { intros pre p post Hsplit Hpre Hp. rewrite ShouldAccept_policies.
    destruct (policies_val ss) as [val|] eqn:Hval.
    - rewrite Hsplit. by apply ShouldAccept_range_rejects.
    - unfold policies in Hsplit. rewrite Hval in Hsplit.
      by destruct pre. }
  split; [|split; [|split; [exact Hall|split; [exact Hrej|apply first_rejecting]]]].
  - split.
    + intros Hres.
      destruct (first_rejecting id a (policies ss))
        as [H0 | (pre & p & post & Hsplit & Hpre & Hp)]; [exact H0|].
      rewrite (Hrej pre p post Hsplit Hpre Hp) in Hres. discriminate.
    + intros H0. by rewrite (Hall H0).
  - intros Hnil. rewrite Hall; rewrite Hnil; [reflexivity|].
    intros p Hp. by apply elem_of_nil in Hp.
Qed.

(** ** The policy blacklist *)

Lemma rejected_not_accepted address ss src :
  rejected address ss src
  = negb (forallb (fun p => Accept p (SourceID src) address) (policies ss)).
Proof.
  unfold rejected. induction (policies ss) as [|p val IH]; simpl; [reflexivity|].
  rewrite IH. by destruct (Accept p (SourceID src) address).
Qed.

Lemma rejected_iff address ss src :
  rejected address ss src = true
  <-> exists p, p ∈ policies ss /\ Accept p (SourceID src) address = false.
Proof.
  unfold rejected. rewrite existsb_exists. split.
  - intros (p & Hin & Hp). exists p. split; [by apply list_elem_of_In|].
    by apply negb_true_iff.
  - intros (p & Hin & Hp). exists p. split; [by apply list_elem_of_In|].
    by apply negb_true_iff.
Qed.

Lemma MakeBlacklist_visit_sources address ss src (acc : list Source) evs :
  (MakeBlacklist_visit address ss src (acc, evs)).1
  = acc ++ (if rejected (TrimPort address) ss src then [src] else []).
Proof.
  unfold MakeBlacklist_visit.
  pose proof (ShouldAccept_ok (SourceID src) address ss) as Hok.
  destruct (ShouldAccept (SourceID src) address ss) as [[ok culprit] e].
  simpl in Hok. rewrite rejected_not_accepted, <- Hok.
  destruct ok; simpl; [by rewrite app_nil_r|reflexivity].
Qed.

(** The sweep of [MakeBlacklist] keeps what it had and adds, in
    enumeration order, the sources [ShouldAccept] turns down. *)
Lemma MakeBlacklist_sweep address ss (srcs acc : list Source) evs :
  (fold_left (fun st src => MakeBlacklist_visit address ss src st) srcs (acc, evs)).1
  = acc ++ List.filter (rejected (TrimPort address) ss) srcs.
Proof.
  revert acc evs. induction srcs as [|src srcs IH]; intros acc evs;
    cbn [fold_left List.filter].
  - by rewrite app_nil_r.
  - pose proof (MakeBlacklist_visit_sources address ss src acc evs) as Hv.
    destruct (MakeBlacklist_visit address ss src (acc, evs)) as [acc' evs'].
    simpl in Hv. rewrite IH, Hv.
    destruct (rejected (TrimPort address) ss src); simpl.
    + by rewrite <- app_assoc.
    + by rewrite app_nil_r.
Qed.

Lemma policies_length_0 ss :
  Nat.eqb (length (policies ss)) 0 = true <-> policies ss = [].
Proof.
  rewrite Nat.eqb_eq. split; [apply nil_length_inv|by intros ->].
Qed.

(** What [MakeBlacklist] returns, with the address as the code
    normalises it: once in [MakeBlacklist], once more in
    [ShouldAccept]. *)
Lemma MakeBlacklist_sources address ss :
  (MakeBlacklist address ss).1
  = policy_forbidden (TrimPort (TrimPort address)) ss.
Proof.
  unfold MakeBlacklist, policy_forbidden, Len, Do.
  destruct (Nat.eqb (length (policies ss)) 0) eqn:Hl; simpl.
  - apply policies_length_0 in Hl. unfold rejected. rewrite Hl. simpl.
    induction (Store_Do (protected ss)) as [|src srcs IH]; simpl; congruence.
  - pose proof (MakeBlacklist_sweep (TrimPort address) ss
                  (Store_Do (protected ss)) [] []) as Hsweep.
    destruct (fold_left _ _ _) as [acc evs]. exact Hsweep.
Qed.

Lemma MakeBlacklist_no_policy address ss :
  policies ss = [] -> MakeBlacklist address ss = ([], [EvLen]).
Proof.
  intros Hnil. unfold MakeBlacklist, Len.
  by rewrite (proj2 (policies_length_0 ss) Hnil).
Qed.

(** C2. For a port-stripped form that stripping leaves alone,
    [MakeBlacklist(address)] returns exactly the sources enumerated by
    the protected storage that some policy rejects for
    [(src.ID(), TrimPort(address))], in enumeration order; with no
    policy it returns the empty list after a single call to [Len], and
    [Do] is not called. *)
Theorem MakeBlacklist_exact address ss :
  (TrimPort (TrimPort address) = TrimPort address ->
     (MakeBlacklist address ss).1 = policy_forbidden (TrimPort address) ss
     /\ (forall src, src ∈ (MakeBlacklist address ss).1
           <-> src ∈ Store_Do (protected ss)
               /\ exists p, p ∈ policies ss
                    /\ Accept p (SourceID src) (TrimPort address) = false))
  /\ (policies ss = [] ->
        MakeBlacklist address ss = ([], [EvLen])
        /\ EvDo ∉ (MakeBlacklist address ss).2).
Proof.
  split.
  - intros Hidem. rewrite MakeBlacklist_sources, Hidem.
    split; [reflexivity|].
    intros src. unfold policy_forbidden.
    rewrite list_elem_of_In, filter_In, <- list_elem_of_In, rejected_iff.
    reflexivity.
  - intros Hnil. rewrite (MakeBlacklist_no_policy address ss Hnil).
    split; [reflexivity|]. simpl.
    intros Hin. apply list_elem_of_singleton in Hin. discriminate.
Qed.

(** ** [Get] *)

(** [Get] unfolded at what the protected storage answers. *)
Lemma Get_unfold (R : ResolverT RErr) ctx address (blacklisted : list Source) ss :
  let a := TrimPort address in
  let bl := blacklisted ++ (MakeBlacklist a ss).1 in
  let ev1 := (MakeBlacklist a ss).2 ++ [EvGet ctx bl] in
  let answer := Store_Get ctx bl (protected ss) in
  let ss1 := set_protected answer.2 ss in
  Get R ctx address blacklisted ss
  = match answer.1.2 with
    | Some _ => (Returned answer.1.1 answer.1.2, ss1, ev1)
    | None =>
        match answer.1.1 with
        | None => (Panicked, ss1, ev1)
        | Some s =>
            (Returned (Some s) None,
             (SaveBindHistory (Source := Source) R (WithTimeout ctx Second)
                (SourceID s) a ss1).1,
             ev1 ++ (SaveBindHistory R (WithTimeout ctx Second) (SourceID s) a ss1).2)
        end
    end.
Proof.
  intros a bl ev1 answer ss1. unfold Get.
  subst a bl ev1 answer ss1.
  destruct (MakeBlacklist (TrimPort address) ss) as [pb ev0]. simpl.
  destruct (Store_Get ctx (blacklisted ++ pb) (protected ss)) as [[s e] ps]. simpl.
  destruct e as [e|]; [reflexivity|].
  destruct s as [s|]; [|reflexivity].
  by destruct (SaveBindHistory R _ _ _ _) as [ss2 ev2].
Qed.

(** C1. Provided the protected storage's [Get] never returns a source
    of the blacklist it is given, a source returned by
    [SourceStore.Get] is neither in the caller's blacklist nor among
    the stored sources that some active policy rejects for the
    port-stripped address: whenever it is one of the sources the
    storage enumerates, every active policy accepts it. *)
Theorem Get_avoids_blacklisted (R : ResolverT RErr) ctx address
    (blacklisted : list Source) ss (s : Source) err ss' evs :
  (forall c bl ps s0 e ps', Store_Get c bl ps = ((Some s0, e), ps') -> s0 ∉ bl) ->
  TrimPort (TrimPort address) = TrimPort address ->
  Get R ctx address blacklisted ss = (Returned (Some s) err, ss', evs) ->
  (s ∉ blacklisted)
  /\ (s ∉ policy_forbidden (TrimPort address) ss)
  /\ (s ∉ blacklisted ++ policy_forbidden (TrimPort address) ss)
  /\ (s ∈ Store_Do (protected ss) ->
      forall p, p ∈ policies ss -> Accept p (SourceID s) (TrimPort address) = true).
Proof.
  intros Hstore Hidem Hget.
  assert (Hout : s ∉ blacklisted ++ policy_forbidden (TrimPort address) ss).
  { rewrite Get_unfold in Hget. cbv zeta in Hget.
    rewrite MakeBlacklist_sources, !Hidem in Hget.
    destruct (Store_Get ctx _ (protected ss)) as [[s0 e] ps] eqn:Hanswer.
    simpl in Hget.
    assert (s0 = Some s) as ->.
    { destruct e; [congruence|]. destruct s0; congruence. }
    exact (Hstore _ _ _ _ _ _ Hanswer). }
  rewrite elem_of_app in Hout.
  split; [tauto|]. split; [tauto|]. split; [by rewrite elem_of_app|].
  intros Hin p Hp.
  destruct (Accept p (SourceID s) (TrimPort address)) eqn:Hacc; [reflexivity|].
  exfalso. apply Hout. right. unfold policy_forbidden.
  rewrite list_elem_of_In, filter_In, <- list_elem_of_In, rejected_iff.
  eauto.
Qed.

(** ** Policy management *)

Lemma set_policies_same ss val :
  policies_val ss = Some val -> set_policies (Some val) ss = ss.
Proof. destruct ss as [ps pv rec hv]. simpl. by intros ->. Qed.

Lemma find_policy_fresh id val :
  (forall v, v ∈ val -> ID v <> id) -> find_policy id val = None.
Proof.
  induction val as [|v val IH]; intros Hfresh; simpl; [reflexivity|].
  destruct (String.eqb_spec (ID v) id) as [Heq|Hne].
  - exfalso. by apply (Hfresh v); [apply list_elem_of_here|].
  - apply IH. intros q Hq. apply Hfresh. by apply list_elem_of_further.
Qed.

Lemma find_policy_present id val v :
  v ∈ val -> ID v = id -> exists v0, find_policy id val = Some v0 /\ ID v0 = id.
Proof.
  induction val as [|q val IH]; intros Hin Hid; [by apply elem_of_nil in Hin|].
  simpl. destruct (String.eqb_spec (ID q) id) as [Heq|Hne]; [by exists q|].
  apply elem_of_cons in Hin as [-> | Hin]; [done|by apply IH].
Qed.

Lemma index_policy_absent id val :
  (forall v, v ∈ val -> ID v <> id) -> index_policy id val = None.
Proof.
  induction val as [|v val IH]; intros Hfresh; simpl; [reflexivity|].
  destruct (String.eqb_spec (ID v) id) as [Heq|Hne].
  - exfalso. by apply (Hfresh v); [apply list_elem_of_here|].
  - rewrite IH; [reflexivity|].
    intros q Hq. apply Hfresh. by apply list_elem_of_further.
Qed.

Lemma index_policy_first id pre v post :
  (forall q, q ∈ pre -> ID q <> id) -> ID v = id ->
  index_policy id (pre ++ v :: post) = Some (length pre).
Proof.
  induction pre as [|q pre IH]; intros Hpre Hid; simpl.
  - by rewrite (proj2 (String.eqb_eq _ _) Hid).
  - destruct (String.eqb_spec (ID q) id) as [Heq|Hne].
    + exfalso. by apply (Hpre q); [apply list_elem_of_here|].
    + rewrite IH; [reflexivity| |assumption].
      intros r Hr. apply Hpre. by apply list_elem_of_further.
Qed.

(** The slice expression [append(val[:j], val[j+1:]...)] at the index
    of [v]. *)
Lemma cut_at (pre : list Policy) v post :
  take (length pre) (pre ++ v :: post) ++ drop (S (length pre)) (pre ++ v :: post)
  = pre ++ post.
Proof.
  rewrite take_app_length. f_equal.
  rewrite cons_middle, app_assoc.
  apply drop_app_length'. rewrite length_app. simpl. lia.
Qed.

(** Where the first policy named [id] sits, if there is one. *)
Lemma first_named id val :
  (forall v, v ∈ val -> ID v <> id)
  \/ (exists pre v post, val = pre ++ v :: post
        /\ (forall q, q ∈ pre -> ID q <> id) /\ ID v = id).
Proof.
  induction val as [|v val IH].
  - left. intros v Hv. by apply elem_of_nil in Hv.
  - destruct (String.eqb_spec (ID v) id) as [Heq|Hne].
    + right. exists [], v, val. split; [reflexivity|]. split; [|assumption].
      intros q Hq. by apply elem_of_nil in Hq.
    + destruct IH as [Hall | (pre & r & post & -> & Hpre & Hr)].
      * left. intros q Hq. apply elem_of_cons in Hq as [-> | Hq]; auto.
      * right. exists (v :: pre), r, post. split; [reflexivity|].
        split; [|assumption].
        intros q Hq. apply elem_of_cons in Hq as [-> | Hq]; auto.
Qed.

Lemma AppendPolicy_present p ss v :
  v ∈ policies ss -> ID v = ID p ->
  AppendPolicy (Source := Source) p ss = (Some (ErrPolicyPresent (ID p)), ss, []).
Proof.
  intros Hin Hid. unfold AppendPolicy, policies in *.
  destruct (policies_val ss) as [val|] eqn:Hval; simpl in Hin;
    [|by apply elem_of_nil in Hin].
  destruct (find_policy_present (ID p) val v Hin Hid) as (v0 & -> & ->).
  by rewrite (set_policies_same ss val Hval).
Qed.

Lemma AppendPolicy_fresh p ss :
  (forall v, v ∈ policies ss -> ID v <> ID p) ->
  AppendPolicy (Source := Source) p ss
  = (None,
     (if String.eqb (ID p) "stick" then RecordBindHistory else fun st => st)
       (set_policies (Some (policies ss ++ [p])) ss),
     []).
Proof.
  intros Hfresh. unfold AppendPolicy, policies in *.
  destruct (policies_val ss) as [val|]; simpl in *;
    [rewrite (find_policy_fresh _ _ Hfresh)|];
    by destruct (String.eqb (ID p) "stick").
Qed.

Lemma DelPolicy_absent id ss val :
  policies_val ss = Some val -> (forall v, v ∈ val -> ID v <> id) ->
  DelPolicy (Source := Source) id ss = (Some (ErrNoPolicyFound id), ss, []).
Proof.
  intros Hval Habs. unfold DelPolicy.
  by rewrite Hval, (index_policy_absent _ _ Habs).
Qed.

Lemma DelPolicy_present id ss pre v post :
  policies ss = pre ++ v :: post ->
  (forall q, q ∈ pre -> ID q <> id) -> ID v = id ->
  DelPolicy (Source := Source) id ss
  = (None,
     (if String.eqb id "stick" then StopRecordingBindHistory else fun st => st)
       (set_policies (Some (pre ++ post)) ss),
     []).
Proof.
  intros Hsplit Hpre Hid. unfold DelPolicy, policies in *.
  destruct (policies_val ss) as [val|]; simpl in Hsplit; [|by destruct pre].
  subst val. rewrite (index_policy_first _ _ _ _ Hpre Hid), cut_at.
  by destruct (String.eqb id "stick").
Qed.

(** C7. [AppendPolicy(p)] with the identifier of a policy already in
    the list fails with the duplicate-policy error and leaves the whole
    store, hence the list (length, order, contents) and the bind
    history, as it was; with a fresh identifier it succeeds and the
    list becomes the old one followed by [p]. *)
Theorem AppendPolicy_rejects_duplicates p ss :
  ((exists v, v ∈ policies ss /\ ID v = ID p) ->
     exists e, AppendPolicy (Source := Source) p ss = (Some e, ss, [])
               /\ e = ErrPolicyPresent (ID p) /\ DuplicatePolicy e = true)
  /\ ((forall v, v ∈ policies ss -> ID v <> ID p) ->
      exists ss', AppendPolicy (Source := Source) p ss = (None, ss', [])
        /\ policies_val ss' = Some (policies ss ++ [p])
        /\ length (policies ss') = S (length (policies ss))
        /\ (forall i v, policies ss !! i = Some v -> policies ss' !! i = Some v)
        /\ policies ss' !! length (policies ss) = Some p).
Proof.
  split.
  - intros (v & Hin & Hid). exists (ErrPolicyPresent (ID p)).
    by rewrite (AppendPolicy_present p ss v Hin Hid).
  - intros Hfresh. rewrite (AppendPolicy_fresh p ss Hfresh).
    eexists. split; [reflexivity|].
    assert (Hval : forall st : SourceStore PS,
      policies_val ((if String.eqb (ID p) "stick" then RecordBindHistory
                     else fun st => st) st) = policies_val st).
    { intros st. by destruct (String.eqb (ID p) "stick"). }
    assert (Hnew : policies ((if String.eqb (ID p) "stick" then RecordBindHistory
                              else fun st => st)
                               (set_policies (Some (policies ss ++ [p])) ss))
                   = policies ss ++ [p]).
    { unfold policies at 1. by rewrite Hval. }
    rewrite Hnew, Hval. simpl.
    split; [reflexivity|].
    split; [rewrite length_app; simpl; lia|].
    split.
    + intros i v Hi. by apply lookup_app_l_Some.
    + by rewrite list_lookup_middle.
Qed.

(** C8. [DelPolicy(id)] fails with a not-found error, and leaves the
    whole store as it was, when no list was ever allocated and when no
    policy of the list is named [id] (an empty list included).  When
    some policy is named [id] it succeeds and removes the first such
    policy: the list loses exactly that element, the others keep their
    relative order. *)
Theorem DelPolicy_removes_one id ss :
  (policies_val ss = None ->
     DelPolicy (Source := Source) id ss = (Some ErrNoPoliciesStored, ss, [])
     /\ PolicyNotFound ErrNoPoliciesStored = true)
  /\ ((forall v, v ∈ policies ss -> ID v <> id) ->
      exists e, DelPolicy (Source := Source) id ss = (Some e, ss, [])
                /\ PolicyNotFound e = true)
  /\ (forall pre v post,
        policies ss = pre ++ v :: post ->
        (forall q, q ∈ pre -> ID q <> id) -> ID v = id ->
        exists ss', DelPolicy (Source := Source) id ss = (None, ss', [])
          /\ policies_val ss' = Some (pre ++ post)
          /\ S (length (policies ss')) = length (policies ss))
  /\ ((forall v, v ∈ policies ss -> ID v <> id)
      \/ (exists pre v post, policies ss = pre ++ v :: post
            /\ (forall q, q ∈ pre -> ID q <> id) /\ ID v = id)).
Proof.
  split; [|split; [|split; [|apply first_named]]].
  - intros Hnil. unfold DelPolicy. by rewrite Hnil.
  - intros Habs. unfold policies in Habs.
    destruct (policies_val ss) as [val|] eqn:Hval.
    + exists (ErrNoPolicyFound id).
      by rewrite (DelPolicy_absent id ss val Hval Habs).
    + exists ErrNoPoliciesStored. unfold DelPolicy. by rewrite Hval.
  - intros pre v post Hsplit Hpre Hid.
    rewrite (DelPolicy_present id ss pre v post Hsplit Hpre Hid).
    eexists. split; [reflexivity|].
    assert (Hval : forall st : SourceStore PS,
      policies_val ((if String.eqb id "stick" then StopRecordingBindHistory
                     else fun st => st) st) = policies_val st).
    { intros st. by destruct (String.eqb id "stick"). }
    assert (Hnew : policies ((if String.eqb id "stick" then StopRecordingBindHistory
                              else fun st => st)
                               (set_policies (Some (pre ++ post)) ss))
                   = pre ++ post).
    { unfold policies at 1. by rewrite Hval. }
    rewrite Hnew, Hval. simpl.
    split; [reflexivity|].
    rewrite Hsplit, !length_app. simpl. lia.
Qed.

(** C10. Unless the policy is named ["stick"], [AppendPolicy] and
    [DelPolicy] leave the recording flag and the table as they were;
    and whatever the policy, neither of them calls the protected
    storage nor changes it. *)
Theorem policy_management_frame p id ss :
  (ID p <> "stick" ->
     bindHistory_record (AppendPolicy (Source := Source) p ss).1.2 = bindHistory_record ss
     /\ bindHistory_val (AppendPolicy (Source := Source) p ss).1.2 = bindHistory_val ss)
  /\ (id <> "stick" ->
     bindHistory_record (DelPolicy (Source := Source) id ss).1.2 = bindHistory_record ss
     /\ bindHistory_val (DelPolicy (Source := Source) id ss).1.2 = bindHistory_val ss)
  /\ (protected (AppendPolicy (Source := Source) p ss).1.2 = protected ss
      /\ (AppendPolicy (Source := Source) p ss).2 = [])
  /\ (protected (DelPolicy (Source := Source) id ss).1.2 = protected ss
      /\ (DelPolicy (Source := Source) id ss).2 = []).
Proof.
  split; [|split; [|split]].
  - intros Hp. apply String.eqb_neq in Hp. unfold AppendPolicy. rewrite Hp.
    by destruct (find_policy _ _).
  - intros Hid. apply String.eqb_neq in Hid. unfold DelPolicy. rewrite Hid.
    destruct (policies_val ss) as [val|]; [|done].
    by destruct (index_policy id val).
  - unfold AppendPolicy.
    destruct (find_policy _ _); [done|].
    by destruct (String.eqb (ID p) "stick").
  - unfold DelPolicy.
    destruct (policies_val ss) as [val|]; [|done].
    destruct (index_policy id val); [|done].
    by destruct (String.eqb id "stick").
Qed.

(** ** Bind history *)

Lemma QueryBindHistory_table address ss :
  QueryBindHistory address ss
  = match table ss !! address with
    | Some src => (src, true)
    | None => ("", false)
    end.
Proof.
  unfold QueryBindHistory, table.
  destruct (bindHistory_val ss) as [val|]; simpl; [reflexivity|].
  by rewrite lookup_empty.
Qed.

Lemma bind_all_other id (addrs : list string) (m : gmap string string) k :
  k ∉ addrs -> bind_all id addrs m !! k = m !! k.
Proof.
  revert m. induction addrs as [|a addrs IH]; intros m Hk; [reflexivity|].
  apply not_elem_of_cons in Hk as [Hne Hk].
  unfold bind_all in *. simpl. rewrite IH by assumption.
  by apply lookup_insert_ne.
Qed.

Lemma bind_all_bound id (addrs : list string) (m : gmap string string) v :
  v ∈ addrs -> bind_all id addrs m !! v = Some id.
Proof.
  revert m. induction addrs as [|a addrs IH]; intros m Hv;
    [by apply elem_of_nil in Hv|].
  change (bind_all id (a :: addrs) m) with (bind_all id addrs (<[a := id]> m)).
  destruct (decide (v ∈ addrs)) as [Hin|Hout]; [by apply IH|].
  apply elem_of_cons in Hv as [-> | Hv]; [|done].
  rewrite bind_all_other by assumption.
  apply lookup_insert_eq.
Qed.

Lemma SaveBindHistory_record (R : ResolverT RErr) ctx id address ss :
  bindHistory_record (SaveBindHistory (Source := Source) R ctx id address ss).1
  = bindHistory_record ss.
Proof.
  unfold SaveBindHistory.
  destruct (bindHistory_record ss) eqn:Hrec; simpl; [|assumption].
  destruct (ParseIP address).
  - destruct (LookupAddr R ctx address) as [[|h hosts] [e|]]; simpl; try done;
      destruct (LookupHost R ctx h) as [addrs [e|]]; done.
  - destruct (LookupHost R ctx address) as [addrs [e|]]; done.
Qed.

Lemma SaveBindHistory_off (R : ResolverT RErr) ctx id address ss :
  bindHistory_record ss = false ->
  SaveBindHistory (Source := Source) R ctx id address ss = (ss, []).
Proof. intros Hrec. unfold SaveBindHistory. by rewrite Hrec. Qed.

(** Allocating the map of a store that records does not change what
    the table holds. *)
Lemma allocate_aborted ss :
  recording_aborted ss
    (set_bindHistory (bindHistory_record ss)
       (Some (match bindHistory_val ss with None => ∅ | Some val => val end)) ss).
Proof.
  unfold recording_aborted.
  split; [reflexivity|].
  assert (Htable : table (set_bindHistory (bindHistory_record ss)
       (Some (match bindHistory_val ss with None => ∅ | Some val => val end)) ss)
       = table ss).
  { unfold table. simpl. by destruct (bindHistory_val ss). }
  split; [exact Htable|].
  split; [intros address; by rewrite !QueryBindHistory_table, Htable|].
  intros Hval. destruct ss as [ps pv rec [val|]]; simpl in *; [reflexivity|done].
Qed.

Lemma bind_all_recorded id addrs ss :
  recorded id addrs ss
    (set_bindHistory (bindHistory_record ss)
       (Some (bind_all id addrs
                (match bindHistory_val ss with None => ∅ | Some val => val end))) ss).
Proof.
  unfold recorded.
  split; [reflexivity|].
  assert (Htable : table (set_bindHistory (bindHistory_record ss)
       (Some (bind_all id addrs
                (match bindHistory_val ss with None => ∅ | Some val => val end))) ss)
       = bind_all id addrs (table ss)).
  { unfold table. simpl. by destruct (bindHistory_val ss). }
  split; [exact Htable|].
  split; intros v Hv; rewrite !QueryBindHistory_table, Htable.
  - by rewrite bind_all_bound.
  - by rewrite bind_all_other.
Qed.

(** The second half of [SaveBindHistory], once a host name is at hand. *)
Lemma SaveBindHistory_forward (R : ResolverT RErr) ctx id address ss host evs :
  bindHistory_record ss = true ->
  (if ParseIP address then
     let '(hosts, err) := LookupAddr R ctx address in
     match err with
     | Some _ => (None, [EvLookupAddr (Source := Source) ctx address])
     | None =>
         match hosts with
         | [] => (None, [EvLookupAddr ctx address])
         | h :: _ => (Some h, [EvLookupAddr ctx address])
         end
     end
   else (Some address, [])) = (Some host, evs) ->
  let out := SaveBindHistory (Source := Source) R ctx id address ss in
  (forall addrs e, LookupHost R ctx host = (addrs, Some e) ->
     recording_aborted ss out.1 /\ out.2 = evs ++ [EvLookupHost ctx host])
  /\ (forall addrs, LookupHost R ctx host = (addrs, None) ->
     recorded id addrs ss out.1 /\ out.2 = evs ++ [EvLookupHost ctx host]).
Proof.
  intros Hrec Hres out. subst out. unfold SaveBindHistory.
  rewrite Hrec. cbn [negb]. rewrite Hres.
  split.
  - intros addrs e Hhost. rewrite Hhost. simpl.
    split; [|reflexivity].
    pose proof (allocate_aborted ss) as Hgave_up.
    rewrite Hrec in Hgave_up. exact Hgave_up.
  - intros addrs Hhost. rewrite Hhost. simpl.
    split; [|reflexivity].
    pose proof (bind_all_recorded id addrs ss) as Hbound.
    rewrite Hrec in Hbound. exact Hbound.
Qed.

(** C4. With recording off, [SaveBindHistory] changes nothing and
    looks nothing up.  With recording on: for a literal IP address it
    first performs a reverse lookup and gives up, the table keeping its
    contents, when that lookup fails or finds no host, going on with
    the first host found otherwise; for any other address it goes on
    with the address itself.  It then performs a forward lookup of that
    host name and gives up, the table keeping its contents, when the
    lookup fails; otherwise it binds the source identifier to every
    address returned. *)
Theorem SaveBindHistory_steps (R : ResolverT RErr) ctx id address ss :
  let out := SaveBindHistory (Source := Source) R ctx id address ss in
  let forward := fun host evs =>
    (forall addrs e, LookupHost R ctx host = (addrs, Some e) ->
       recording_aborted ss out.1 /\ out.2 = evs ++ [EvLookupHost ctx host])
    /\ (forall addrs, LookupHost R ctx host = (addrs, None) ->
       recorded id addrs ss out.1 /\ out.2 = evs ++ [EvLookupHost ctx host]) in
  (bindHistory_record ss = false -> out = (ss, []))
  /\ (bindHistory_record ss = true ->
      (ParseIP address = true ->
         (forall hosts e, LookupAddr R ctx address = (hosts, Some e) ->
            recording_aborted ss out.1 /\ out.2 = [EvLookupAddr ctx address])
         /\ (LookupAddr R ctx address = ([], None) ->
            recording_aborted ss out.1 /\ out.2 = [EvLookupAddr ctx address])
         /\ (forall h hosts, LookupAddr R ctx address = (h :: hosts, None) ->
            forward h [EvLookupAddr ctx address]))
      /\ (ParseIP address = false -> forward address [])).
Proof.
  intros out forward. split; [apply SaveBindHistory_off|].
  intros Hrec. split.
  - intros Hip. split; [|split].
    + intros hosts e Haddr. subst out. unfold SaveBindHistory.
      rewrite Hrec, Hip, Haddr. simpl.
      split; [|reflexivity].
      pose proof (allocate_aborted ss) as Hgave_up.
      rewrite Hrec in Hgave_up. exact Hgave_up.
    + intros Haddr. subst out. unfold SaveBindHistory.
      rewrite Hrec, Hip, Haddr. simpl.
      split; [|reflexivity].
      pose proof (allocate_aborted ss) as Hgave_up.
      rewrite Hrec in Hgave_up. exact Hgave_up.
    + intros h hosts Haddr. subst forward out.
      apply SaveBindHistory_forward; [assumption|].
      by rewrite Hip, Haddr.
  - intros Hip. subst forward out.
    apply SaveBindHistory_forward; [assumption|].
    by rewrite Hip.
Qed.

(** ** The coupling of ["stick"] with the bind history *)

Lemma SaveBindHistory_inv (R : ResolverT RErr) ctx id address ss :
  history_inv ss ->
  history_inv (SaveBindHistory (Source := Source) R ctx id address ss).1.
Proof.
  intros Hinv. destruct (bindHistory_record ss) eqn:Hrec.
  - intros Hoff. rewrite SaveBindHistory_record in Hoff. congruence.
  - by rewrite SaveBindHistory_off.
Qed.

Lemma Get_inv (R : ResolverT RErr) ctx address (blacklisted : list Source) ss :
  history_inv ss -> history_inv (Get R ctx address blacklisted ss).1.2.
Proof.
  intros Hinv. rewrite Get_unfold. cbv zeta.
  destruct (Store_Get ctx _ (protected ss)) as [[s e] ps]. simpl.
  destruct e as [e|]; [exact Hinv|].
  destruct s as [s|]; [|exact Hinv].
  apply SaveBindHistory_inv. exact Hinv.
Qed.

Lemma AppendPolicy_inv p ss :
  history_inv ss -> history_inv (AppendPolicy (Source := Source) p ss).1.2.
Proof.
  intros Hinv. unfold AppendPolicy.
  destruct (find_policy _ _); [exact Hinv|].
  destruct (String.eqb (ID p) "stick"); [|exact Hinv].
  intros Hoff. discriminate Hoff.
Qed.

Lemma DelPolicy_inv id ss :
  history_inv ss -> history_inv (DelPolicy (Source := Source) id ss).1.2.
Proof.
  intros Hinv. unfold DelPolicy.
  destruct (policies_val ss) as [val|]; [|exact Hinv].
  destruct (index_policy id val); [|exact Hinv].
  destruct (String.eqb id "stick"); [|exact Hinv].
  intros _. reflexivity.
Qed.

Lemma exec_inv (op : Op Source RErr) ss :
  history_inv ss -> history_inv (exec op ss).
Proof.
  intros Hinv. destruct op; simpl; try exact Hinv.
  - by apply Get_inv.
  - by apply SaveBindHistory_inv.
  - by apply AppendPolicy_inv.
  - by apply DelPolicy_inv.
  - intros Hoff. discriminate Hoff.
  - intros _. reflexivity.
Qed.

Lemma run_inv (ops : list (Op Source RErr)) ss :
  history_inv ss -> history_inv (run ops ss).
Proof.
  revert ss. induction ops as [|op ops IH]; intros ss Hinv; [exact Hinv|].
  apply IH. by apply exec_inv.
Qed.

(** C3. Appending a policy named ["stick"] to a list that has none
    turns recording on, with an empty table.  Deleting the policy named
    ["stick"] turns recording off and drops the table, after which
    [QueryBindHistory] finds nothing for any address.  "Recording off
    implies no table" holds of a new store, is preserved by every
    method, and so holds after any sequence of calls. *)
Theorem stick_toggles_recording :
  (forall p ss,
     ID p = "stick" -> (forall v, v ∈ policies ss -> ID v <> "stick") ->
     exists ss', AppendPolicy (Source := Source) p ss = (None, ss', [])
       /\ bindHistory_record ss' = true
       /\ bindHistory_val ss' = Some ∅
       /\ (forall address, QueryBindHistory address ss' = ("", false)))
  /\ (forall ss,
     (exists v, v ∈ policies ss /\ ID v = "stick") ->
     exists ss', DelPolicy (Source := Source) "stick" ss = (None, ss', [])
       /\ bindHistory_record ss' = false
       /\ bindHistory_val ss' = None
       /\ (forall address, QueryBindHistory address ss' = ("", false)))
  /\ (forall store : PS, history_inv (New store))
  /\ (forall (op : Op Source RErr) ss, history_inv ss -> history_inv (exec op ss))
  /\ (forall (ops : list (Op Source RErr)) (store : PS),
        history_inv (run ops (New store))).
Proof.
  split; [|split; [|split; [|split]]].
  - intros p ss Hid Hfresh. rewrite <- Hid in Hfresh.
    rewrite (AppendPolicy_fresh p ss Hfresh), Hid. simpl.
    eexists. split; [reflexivity|]. simpl.
    split; [reflexivity|]. split; [reflexivity|].
    intros address. unfold QueryBindHistory. simpl. by rewrite lookup_empty.
  - intros ss (v & Hin & Hid).
    destruct (first_named "stick" (policies ss))
      as [Habs | (pre & v0 & post & Hsplit & Hpre & Hv0)];
      [by destruct (Habs v Hin)|].
    rewrite (DelPolicy_present "stick" ss pre v0 post Hsplit Hpre Hv0). simpl.
    eexists. split; [reflexivity|]. done.
  - intros store Hoff. reflexivity.
  - apply exec_inv.
  - intros ops store. apply run_inv. intros Hoff. reflexivity.
Qed.

(** ** Errors and the recording step of [Get] *)

(** C5. [Get] returns an error exactly when the protected storage's
    [Get] does, and then returns the storage's source and error as they
    are.  When the storage returns a source and no error, [Get] returns
    that source and no error, whatever the resolver answers during the
    recording step. *)
Theorem Get_propagates_storage_error (R : ResolverT RErr) ctx address
    (blacklisted : list Source) ss :
  let bl := blacklisted ++ (MakeBlacklist (TrimPort address) ss).1 in
  let answer := (Store_Get ctx bl (protected ss)).1 in
  let result := (Get R ctx address blacklisted ss).1.1 in
  (forall e, answer.2 = Some e -> result = Returned answer.1 (Some e))
  /\ (forall s, answer = (Some s, None) -> result = Returned (Some s) None)
  /\ ((exists (r : option Source) (e : Err), result = Returned r (Some e))
      <-> (exists e, answer.2 = Some e)).
Proof.
  intros bl answer result. subst result. rewrite Get_unfold. cbv zeta.
  fold bl. fold answer.
  destruct answer as [s e]. simpl.
  split; [|split].
  - intros e0 ->. reflexivity.
  - intros s0 [= -> ->]. reflexivity.
  - split.
    + intros (r & e0 & Hres). destruct e as [e|]; [by exists e|].
      destruct s as [s|]; simpl in Hres; discriminate.
    + intros (e0 & ->). simpl. by exists s, e0.
Qed.

Lemma ShouldAccept_no_lookup id address ss :
  Forall (fun e => lookup_ctx e = None) (ShouldAccept (Source := Source) id address ss).2.
Proof.
  unfold ShouldAccept. destruct (policies_val ss) as [val|]; [|by constructor].
  simpl. induction val as [|p val IH]; simpl; [by constructor|].
  destruct (Accept p id (TrimPort address)); simpl.
  - destruct (ShouldAccept_range id (TrimPort address) val) as [r evs].
    simpl in *. by constructor.
  - by repeat constructor.
Qed.

Lemma MakeBlacklist_no_lookup address ss :
  Forall (fun e => lookup_ctx e = None) (MakeBlacklist address ss).2.
Proof.
  unfold MakeBlacklist, Len, Do.
  destruct (Nat.eqb (length (policies ss)) 0); [by repeat constructor|].
  assert (Hsweep : forall (srcs acc : list Source) evs,
    Forall (fun e => lookup_ctx e = None) evs ->
    Forall (fun e => lookup_ctx e = None)
      (fold_left (fun st src => MakeBlacklist_visit (TrimPort address) ss src st)
         srcs (acc, evs)).2).
  { induction srcs as [|src srcs IH]; intros acc evs Hevs; [exact Hevs|].
    cbn [fold_left]. unfold MakeBlacklist_visit at 2.
    pose proof (ShouldAccept_no_lookup (SourceID src) (TrimPort address) ss) as He.
    destruct (ShouldAccept (SourceID src) (TrimPort address) ss) as [[ok culprit] e].
    simpl in He.
    destruct ok; simpl; apply IH; by apply Forall_app. }
  specialize (Hsweep (Store_Do (protected ss)) [] [] (Forall_nil_2 _)).
  destruct (fold_left _ _ _) as [acc evs]. simpl in *.
  by repeat constructor.
Qed.

Lemma SaveBindHistory_lookup_ctx (R : ResolverT RErr) ctx id address ss :
  Forall (fun e => forall c, lookup_ctx e = Some c -> c = ctx)
    (SaveBindHistory (Source := Source) R ctx id address ss).2.
Proof.
  assert (Hev : forall e : Event Source,
            lookup_ctx e = Some ctx -> forall c, lookup_ctx e = Some c -> c = ctx)
    by (intros e He c Hc; congruence).
  unfold SaveBindHistory.
  destruct (bindHistory_record ss); simpl; [|by constructor].
  destruct (ParseIP address).
  - destruct (LookupAddr R ctx address) as [[|h hosts] [e|]]; simpl;
      try (by repeat constructor; apply Hev);
      destruct (LookupHost R ctx h) as [addrs [e|]]; simpl;
      by repeat constructor; apply Hev.
  - destruct (LookupHost R ctx address) as [addrs [e|]]; simpl;
      by repeat constructor; apply Hev.
Qed.

Lemma WithTimeout_expires ctx d : expires_within d (WithTimeout ctx d).
Proof.
  unfold expires_within, WithTimeout. simpl.
  destruct (ctx_deadline ctx) as [t|]; eexists; (split; [reflexivity|lia]).
Qed.

(** C6, as the code has it.  When the protected storage returns a
    source and no error, [Get] runs the recording step itself, before
    it returns: the store it leaves behind is the one the step leaves
    behind, and the step's lookups are part of what the call did.  The
    step is given a context that expires within one second, and every
    lookup of the call is issued with that context. *)
Theorem Get_records_before_returning (R : ResolverT RErr) ctx address
    (blacklisted : list Source) ss (s : Source) (ps : PS) :
  let a := TrimPort address in
  let bl := blacklisted ++ (MakeBlacklist a ss).1 in
  let budget := WithTimeout ctx Second in
  let step := SaveBindHistory (Source := Source) R budget (SourceID s) a
                (set_protected ps ss) in
  Store_Get ctx bl (protected ss) = ((Some s, None), ps) ->
  Get R ctx address blacklisted ss
  = (Returned (Some s) None, step.1,
     ((MakeBlacklist a ss).2 ++ [EvGet ctx bl]) ++ step.2)
  /\ expires_within Second budget
  /\ (forall e c, e ∈ (Get R ctx address blacklisted ss).2 ->
        lookup_ctx e = Some c -> c = budget).
Proof.
  intros a bl budget step Hanswer.
  assert (Hget : Get R ctx address blacklisted ss
                 = (Returned (Some s) None, step.1,
                    ((MakeBlacklist a ss).2 ++ [EvGet ctx bl]) ++ step.2)).
  { rewrite Get_unfold. cbv zeta. fold a. fold bl. by rewrite Hanswer. }
  split; [exact Hget|]. split; [apply WithTimeout_expires|].
  intros e c. rewrite Hget. simpl. rewrite !elem_of_app.
  intros [[Hin | Hin] | Hin] Hc.
  - pose proof (MakeBlacklist_no_lookup a ss) as Hnone.
    rewrite Forall_forall in Hnone. specialize (Hnone e Hin). congruence.
  - apply list_elem_of_singleton in Hin. subst e. discriminate.
  - pose proof (SaveBindHistory_lookup_ctx R budget (SourceID s) a
                  (set_protected ps ss)) as Hctx.
    rewrite Forall_forall in Hctx. exact (Hctx e Hin c Hc).
Qed.

End Properties.

(** * The store at work on the sample collaborators *)

Lemma list_store_respects_blacklist (c : Ctx) (bl ps : list string) (s0 : string)
    (e : option string) (ps' : list string) :
  Store_Get c bl ps = ((Some s0, e), ps') -> s0 ∉ bl.
Proof.
  simpl. destruct (List.find _ ps) as [s|] eqn:Hfind; [|discriminate].
  intros [= <- <- <-]. apply find_some in Hfind as [_ Hs].
  intros Hin. apply list_elem_of_In in Hin.
  assert (Hlisted : listed s bl = true).
  { apply existsb_exists. exists s. split; [assumption|apply String.eqb_refl]. }
  rewrite Hlisted in Hs. discriminate.
Qed.

(** With ["A"] barred from ["bank.example"], a request for
    ["bank.example:443"] is served by ["B"]. *)
Lemma Get_avoids_blacklisted_witness :
  Get sample_resolver background "bank.example:443" [] bank_store
  = (Returned (Some "B") None, bank_store,
     (Get sample_resolver background "bank.example:443" [] bank_store).2)
  /\ ("B" ∉ ([] : list string))
  /\ ("B" ∉ policy_forbidden "bank.example" bank_store)
  /\ ("B" ∉ [] ++ policy_forbidden "bank.example" bank_store)
  /\ ("B" ∈ ["A"; "B"] ->
      forall p, p ∈ policies bank_store -> Accept p "B" "bank.example" = true).
Proof.
  assert (Hget : Get sample_resolver background "bank.example:443" [] bank_store
    = (Returned (Some "B") None, bank_store,
       (Get sample_resolver background "bank.example:443" [] bank_store).2))
    by reflexivity.
  split; [exact Hget|].
  exact (Get_avoids_blacklisted sample_resolver background "bank.example:443" []
           bank_store "B" None bank_store _
           list_store_respects_blacklist eq_refl Hget).
Defined.

Lemma MakeBlacklist_exact_witness :
  (MakeBlacklist "bank.example:443" bank_store).1 = ["A"]
  /\ MakeBlacklist "bank.example:443" fresh_store = ([], [EvLen]).
Proof.
  split.
  - destruct (MakeBlacklist_exact "bank.example:443" bank_store) as [Hsome _].
    destruct (Hsome eq_refl) as [-> _]. reflexivity.
  - destruct (MakeBlacklist_exact "bank.example:443" fresh_store) as [_ Hnone].
    exact (proj1 (Hnone eq_refl)).
Defined.

Lemma ShouldAccept_short_circuit_witness :
  ShouldAccept (Source := string) "A" "bank.example:443" layered_store
  = ((false, Some block_policy),
     [EvAccept allow_policy "A" "bank.example";
      EvAccept block_policy "A" "bank.example"])
  /\ ShouldAccept (Source := string) "B" "bank.example:443" layered_store
     = ((true, None),
        [EvAccept allow_policy "B" "bank.example";
         EvAccept block_policy "B" "bank.example";
         EvAccept stick_policy "B" "bank.example"])
  /\ ShouldAccept (Source := string) "A" "bank.example:443" fresh_store = ((true, None), []).
Proof.
  split; [|split].
  - destruct (ShouldAccept_short_circuit (Source := string)
                "A" "bank.example:443" layered_store)
      as (_ & _ & _ & Hrej & _).
    apply (Hrej [allow_policy] block_policy [stick_policy]);
      [reflexivity| |reflexivity].
    intros q Hq. apply list_elem_of_singleton in Hq. subst q. reflexivity.
  - destruct (ShouldAccept_short_circuit (Source := string)
                "B" "bank.example:443" layered_store)
      as (_ & _ & Hall & _).
    apply Hall. intros p Hp.
    change (policies layered_store)
      with [allow_policy; block_policy; stick_policy] in Hp.
    repeat (apply elem_of_cons in Hp as [-> | Hp]; [reflexivity|]).
    by apply elem_of_nil in Hp.
  - destruct (ShouldAccept_short_circuit (Source := string)
                "A" "bank.example:443" fresh_store)
      as (_ & Hnil & _).
    exact (Hnil eq_refl).
Defined.

Lemma stick_toggles_recording_witness :
  (exists ss', AppendPolicy (Source := string) stick_policy fresh_store = (None, ss', [])
     /\ bindHistory_record ss' = true
     /\ bindHistory_val ss' = Some ∅
     /\ (forall address, QueryBindHistory address ss' = ("", false)))
  /\ (exists ss', DelPolicy (Source := string) "stick" sticky_store = (None, ss', [])
     /\ bindHistory_record ss' = false
     /\ bindHistory_val ss' = None
     /\ (forall address, QueryBindHistory address ss' = ("", false)))
  /\ history_inv
       (exec (OpGet sample_resolver background "svc.example:443" []) sticky_store).
Proof.
  destruct (@stick_toggles_recording string string string (list string) _ _ _)
    as (Hon & Hoff & Hnew & Hstep & _).
  split; [|split].
  - apply Hon; [reflexivity|].
    intros v Hv. by apply elem_of_nil in Hv.
  - apply Hoff. exists stick_policy. split; [|reflexivity].
    change (policies sticky_store) with [stick_policy]. apply list_elem_of_here.
  - apply Hstep. intros Hrec. discriminate Hrec.
Defined.

(** A request to ["10.0.0.1"] served by ["A"] is remembered for both
    addresses of the service; nothing is remembered when the resolver
    fails, nor when recording is off. *)
Lemma SaveBindHistory_steps_witness :
  recorded "A" ["10.0.0.1"; "10.0.0.2"] sticky_store
    (SaveBindHistory (Source := string) sample_resolver background "A" "10.0.0.1"
       sticky_store).1
  /\ recording_aborted sticky_store
       (SaveBindHistory (Source := string) failing_resolver background "A" "10.0.0.1"
          sticky_store).1
  /\ recording_aborted sticky_store
       (SaveBindHistory (Source := string) failing_resolver background "A" "svc.example"
          sticky_store).1
  /\ SaveBindHistory (Source := string) sample_resolver background "A" "10.0.0.1"
       fresh_store = (fresh_store, []).
Proof.
  split; [|split; [|split]].
  - pose proof (SaveBindHistory_steps (Source := string) sample_resolver background
                  "A" "10.0.0.1" sticky_store) as Hsteps.
    cbv zeta in Hsteps. destruct Hsteps as [_ Hon].
    destruct (Hon eq_refl) as [Hip _].
    destruct (Hip eq_refl) as (_ & _ & Hforward).
    destruct (Hforward "svc.example" [] eq_refl) as [_ Hbound].
    exact (proj1 (Hbound ["10.0.0.1"; "10.0.0.2"] eq_refl)).
  - pose proof (SaveBindHistory_steps (Source := string) failing_resolver background
                  "A" "10.0.0.1" sticky_store) as Hsteps.
    cbv zeta in Hsteps. destruct Hsteps as [_ Hon].
    destruct (Hon eq_refl) as [Hip _].
    destruct (Hip eq_refl) as (Herr & _).
    exact (proj1 (Herr [] "i/o timeout" eq_refl)).
  - pose proof (SaveBindHistory_steps (Source := string) failing_resolver background
                  "A" "svc.example" sticky_store) as Hsteps.
    cbv zeta in Hsteps. destruct Hsteps as [_ Hon].
    destruct (Hon eq_refl) as [_ Hname].
    destruct (Hname eq_refl) as [Herr _].
    exact (proj1 (Herr [] "i/o timeout" eq_refl)).
  - pose proof (SaveBindHistory_steps (Source := string) sample_resolver background
                  "A" "10.0.0.1" fresh_store) as Hsteps.
    cbv zeta in Hsteps. exact (proj1 Hsteps eq_refl).
Defined.

Lemma Get_propagates_storage_error_witness :
  (Get failing_resolver background "svc.example:443" [] sticky_store).1.1
  = Returned (Some "A") None
  /\ (Get sample_resolver background "svc.example:443" ["A"; "B"] sticky_store).1.1
     = Returned None (Some "no eligible source").
Proof.
  split.
  - pose proof (Get_propagates_storage_error failing_resolver background
                  "svc.example:443" [] sticky_store) as Hget.
    cbv zeta in Hget. destruct Hget as (_ & Hok & _).
    exact (Hok "A" eq_refl).
  - pose proof (Get_propagates_storage_error sample_resolver background
                  "svc.example:443" ["A"; "B"] sticky_store) as Hget.
    cbv zeta in Hget. destruct Hget as (Herr & _).
    exact (Herr "no eligible source" eq_refl).
Defined.

(** With the sticky policy in place, [Get] comes back only once the
    lookup is done and the table is written. *)
Lemma Get_waits_for_recording :
  ~ returns_before_recording sample_resolver background "svc.example:443" []
      sticky_store.
Proof.
  unfold returns_before_recording.
  destruct (Get sample_resolver background "svc.example:443" [] sticky_store)
    as [[r ss'] evs] eqn:Hget.
  vm_compute in Hget. injection Hget as <- <- <-.
  intros [Hnone _]. vm_compute in Hnone. discriminate Hnone.
Qed.

Lemma Get_records_before_returning_witness :
  Get sample_resolver background "svc.example:443" [] sticky_store
  = (Returned (Some "A") None,
     (SaveBindHistory (Source := string) sample_resolver (WithTimeout background Second)
        "A" "svc.example" sticky_store).1,
     [EvLen; EvDo; EvAccept stick_policy "A" "svc.example";
      EvAccept stick_policy "B" "svc.example"; EvGet background [];
      EvLookupHost (MkCtx (Some Second)) "svc.example"])
  /\ QueryBindHistory "10.0.0.2"
       (Get sample_resolver background "svc.example:443" [] sticky_store).1.2
     = ("A", true).
Proof.
  pose proof (Get_records_before_returning sample_resolver background
                "svc.example:443" [] sticky_store "A" ["A"; "B"]) as Hget.
  cbv zeta in Hget. destruct (Hget eq_refl) as (Heq & _ & _).
  split.
  - rewrite Heq. reflexivity.
  - rewrite Heq. vm_compute. reflexivity.
Defined.

Lemma AppendPolicy_rejects_duplicates_witness :
  (exists e, AppendPolicy (Source := string) block_policy bank_store
             = (Some e, bank_store, [])
             /\ e = ErrPolicyPresent "block" /\ DuplicatePolicy e = true)
  /\ (exists ss', AppendPolicy (Source := string) stick_policy bank_store = (None, ss', [])
        /\ policies_val ss' = Some [block_policy; stick_policy]).
Proof.
  split.
  - apply (proj1 (AppendPolicy_rejects_duplicates (Source := string)
                    block_policy bank_store)).
    exists block_policy. split; [|reflexivity].
    change (policies bank_store) with [block_policy]. apply list_elem_of_here.
  - destruct (proj2 (AppendPolicy_rejects_duplicates (Source := string)
                       stick_policy bank_store)) as (ss' & Happ & Hval & _).
    + intros v Hv. change (policies bank_store) with [block_policy] in Hv.
      apply list_elem_of_singleton in Hv. subst v. discriminate.
    + exists ss'. split; [exact Happ|exact Hval].
Defined.

Lemma DelPolicy_removes_one_witness :
  DelPolicy (Source := string) "block" fresh_store
  = (Some ErrNoPoliciesStored, fresh_store, [])
  /\ (exists e, DelPolicy (Source := string) "stick" bank_store = (Some e, bank_store, [])
        /\ PolicyNotFound e = true)
  /\ (exists ss', DelPolicy (Source := string) "block" layered_store = (None, ss', [])
        /\ policies_val ss' = Some [allow_policy; stick_policy]
        /\ S (length (policies ss')) = length (policies layered_store)).
Proof.
  split; [|split].
  - destruct (DelPolicy_removes_one (Source := string) "block" fresh_store)
      as (Hnil & _).
    exact (proj1 (Hnil eq_refl)).
  - destruct (DelPolicy_removes_one (Source := string) "stick" bank_store)
      as (_ & Habs & _).
    apply Habs. intros v Hv. change (policies bank_store) with [block_policy] in Hv.
    apply list_elem_of_singleton in Hv. subst v. discriminate.
  - destruct (DelPolicy_removes_one (Source := string) "block" layered_store)
      as (_ & _ & Hdel & _).
    apply (Hdel [allow_policy] block_policy [stick_policy]);
      [reflexivity| |reflexivity].
    intros q Hq. apply list_elem_of_singleton in Hq. subst q. discriminate.
Defined.

Lemma policy_management_frame_witness :
  (bindHistory_record (AppendPolicy (Source := string) block_policy sticky_store).1.2
   = true
   /\ bindHistory_val (AppendPolicy (Source := string) block_policy sticky_store).1.2
      = Some ∅)
  /\ (bindHistory_record (DelPolicy (Source := string) "block" sticky_store).1.2 = true
      /\ bindHistory_val (DelPolicy (Source := string) "block" sticky_store).1.2
         = Some ∅).
Proof.
  destruct (policy_management_frame (Source := string) block_policy "block"
              sticky_store) as (Happ & Hdel & _).
  split.
  - apply Happ. discriminate.
  - apply Hdel. discriminate.
Defined.

(** * Further properties of the store *)

Section Lifecycle.

Context {Source Err RErr PS : Type}.
Context `{!Store Source Err PS} `{!SourceAPI Source} `{!Net}.

Implicit Types (ss : SourceStore PS) (p q : Policy) (val : list Policy).
Implicit Types (id address host : string) (src : Source).

(** ** What each method leaves alone *)

Lemma SaveBindHistory_policies (R : ResolverT RErr) ctx id address ss :
  policies_val (SaveBindHistory (Source := Source) R ctx id address ss).1
  = policies_val ss
  /\ protected (SaveBindHistory (Source := Source) R ctx id address ss).1
     = protected ss.
Proof.
  unfold SaveBindHistory.
  destruct (bindHistory_record ss); simpl; [|done].
  destruct (ParseIP address).
  - destruct (LookupAddr R ctx address) as [[|h hosts] [e|]]; simpl; try done;
      destruct (LookupHost R ctx h) as [addrs [e|]]; done.
  - destruct (LookupHost R ctx address) as [addrs [e|]]; done.
Qed.

Lemma Get_policies (R : ResolverT RErr) ctx address (blacklisted : list Source) ss :
  policies_val (Get R ctx address blacklisted ss).1.2 = policies_val ss.
Proof.
  rewrite Get_unfold. cbv zeta.
  destruct (Store_Get ctx _ (protected ss)) as [[s e] ps]. simpl.
  destruct e as [e|]; [reflexivity|].
  destruct s as [s|]; [|reflexivity].
  simpl. by rewrite (proj1 (SaveBindHistory_policies R _ _ _ _)).
Qed.

Lemma exec_policies (op : Op Source RErr) ss :
  edits_policies op = false -> policies_val (exec op ss) = policies_val ss.
Proof.
  destruct op; simpl; intros Hop; try reflexivity; try discriminate.
  - apply Get_policies.
  - apply SaveBindHistory_policies.
Qed.

(** ** Policy identifiers stay unique *)

Lemma find_policy_none id val :
  find_policy id val = None -> forall v, v ∈ val -> ID v <> id.
Proof.
  induction val as [|q val IH]; intros Hnone v Hv; [by apply elem_of_nil in Hv|].
  simpl in Hnone. destruct (String.eqb_spec (ID q) id) as [Heq|Hne]; [discriminate|].
  apply elem_of_cons in Hv as [-> | Hv]; [assumption|by apply IH].
Qed.

(** What [AppendPolicy] does, by whether the identifier is taken. *)
Lemma AppendPolicy_cases p ss :
  AppendPolicy (Source := Source) p ss = (Some (ErrPolicyPresent (ID p)), ss, [])
  \/ ((forall v, v ∈ policies ss -> ID v <> ID p)
      /\ AppendPolicy (Source := Source) p ss
         = (None,
            (if String.eqb (ID p) "stick" then RecordBindHistory else fun st => st)
              (set_policies (Some (policies ss ++ [p])) ss),
            [])).
Proof.
  destruct (first_named (ID p) (policies ss))
    as [Hfresh | (pre & v & post & Hsplit & _ & Hv)].
  - right. split; [exact Hfresh|]. by apply AppendPolicy_fresh.
  - left. apply (AppendPolicy_present p ss v); [|exact Hv].
    rewrite Hsplit. apply elem_of_app. right. apply list_elem_of_here.
Qed.

(** What [DelPolicy] does, by whether a policy bears the identifier. *)
Lemma DelPolicy_cases id ss :
  ((forall v, v ∈ policies ss -> ID v <> id)
   /\ exists e, DelPolicy (Source := Source) id ss = (Some e, ss, []))
  \/ (exists pre v post,
        policies ss = pre ++ v :: post
        /\ (forall q, q ∈ pre -> ID q <> id) /\ ID v = id
        /\ DelPolicy (Source := Source) id ss
           = (None,
              (if String.eqb id "stick" then StopRecordingBindHistory
               else fun st => st)
                (set_policies (Some (pre ++ post)) ss),
              [])).
Proof.
  destruct (first_named id (policies ss))
    as [Habs | (pre & v & post & Hsplit & Hpre & Hv)].
  - left. split; [exact Habs|]. unfold policies in Habs.
    destruct (policies_val ss) as [val|] eqn:Hval.
    + exists (ErrNoPolicyFound id). by apply (DelPolicy_absent id ss val).
    + exists ErrNoPoliciesStored. unfold DelPolicy. by rewrite Hval.
  - right. exists pre, v, post.
    split; [assumption|]. split; [assumption|]. split; [assumption|].
    by apply (DelPolicy_present id ss pre v post).
Qed.

Lemma policies_after_toggle (toggle : bool)
    (f : SourceStore PS -> SourceStore PS) val ss :
  (forall st, policies_val (f st) = policies_val st) ->
  policies ((if toggle then f else fun st => st) (set_policies (Some val) ss)) = val.
Proof. intros Hf. unfold policies. destruct toggle; [by rewrite Hf|done]. Qed.

Lemma AppendPolicy_unique p ss :
  unique_ids ss -> unique_ids (AppendPolicy (Source := Source) p ss).1.2.
Proof.
  intros Huniq. destruct (AppendPolicy_cases p ss) as [-> | [Hfresh ->]];
    [exact Huniq|].
  unfold unique_ids. simpl. rewrite policies_after_toggle by done.
  rewrite map_app. apply NoDup_app. split; [exact Huniq|].
  split; [|apply NoDup_singleton].
  intros i Hi Hp. simpl in Hp. apply list_elem_of_singleton in Hp. subst i.
  apply list_elem_of_fmap in Hi as (v & Hid & Hv). by apply (Hfresh v).
Qed.

Lemma DelPolicy_unique id ss :
  unique_ids ss -> unique_ids (DelPolicy (Source := Source) id ss).1.2.
Proof.
  intros Huniq.
  destruct (DelPolicy_cases id ss)
    as [[_ [e ->]] | (pre & v & post & Hsplit & _ & _ & ->)]; [exact Huniq|].
  unfold unique_ids in *. simpl. rewrite policies_after_toggle by done.
  rewrite Hsplit in Huniq. rewrite map_app in *. simpl in Huniq.
  apply NoDup_app in Huniq as (Hpre & Hcross & Hpost).
  apply NoDup_cons in Hpost as [_ Hpost].
  apply NoDup_app. split; [exact Hpre|]. split; [|exact Hpost].
  intros i Hi Hin. apply (Hcross i Hi). by apply list_elem_of_further.
Qed.

Lemma exec_unique (op : Op Source RErr) ss :
  unique_ids ss -> unique_ids (exec op ss).
Proof.
  intros Huniq. destruct (edits_policies op) eqn:Hop.
  - destruct op; try discriminate; simpl.
    + by apply AppendPolicy_unique.
    + by apply DelPolicy_unique.
  - unfold unique_ids, policies. by rewrite exec_policies.
Qed.

(** X1. No two policies of the list ever share an identifier: the
    property holds of a new store, every method preserves it, and so
    it holds after any sequence of calls. *)
Theorem policy_ids_stay_unique :
  (forall store : PS, unique_ids (New store))
  /\ (forall (op : Op Source RErr) ss, unique_ids ss -> unique_ids (exec op ss))
  /\ (forall (ops : list (Op Source RErr)) (store : PS),
        unique_ids (run ops (New store))).
Proof.
  assert (Hnew : forall store : PS, unique_ids (New store))
    by (intros store; apply NoDup_nil_2).
  split; [exact Hnew|]. split; [apply exec_unique|].
  intros ops store. generalize (Hnew store). generalize (New store).
  induction ops as [|op ops IH]; intros ss Huniq; [exact Huniq|].
  apply IH. by apply exec_unique.
Qed.

Lemma policies_val_after_toggle (toggle : bool)
    (f : SourceStore PS -> SourceStore PS) val ss :
  (forall st, policies_val (f st) = policies_val st) ->
  policies_val ((if toggle then f else fun st => st) (set_policies (Some val) ss))
  = Some val.
Proof. intros Hf. destruct toggle; [by rewrite Hf|done]. Qed.

(** In a list without repeated identifiers, no other policy bears the
    identifier of [v]. *)
Lemma unique_ids_split pre v post :
  NoDup (map ID (pre ++ v :: post)) ->
  forall q, q ∈ pre ++ post -> ID q <> ID v.
Proof.
  rewrite map_app. simpl. intros Huniq q Hq Heq.
  apply NoDup_app in Huniq as (_ & Hcross & Hpost).
  apply NoDup_cons in Hpost as [Hv _].
  apply elem_of_app in Hq as [Hq | Hq].
  - apply (Hcross (ID q)); [by apply list_elem_of_fmap_2|].
    rewrite Heq. apply list_elem_of_here.
  - apply Hv. rewrite <- Heq. by apply list_elem_of_fmap_2.
Qed.

(** X2. Appending a policy with a fresh identifier and then deleting
    that identifier gives the policy list back; unless the policy is
    named ["stick"], a store whose list was allocated is exactly as
    before. *)
Theorem AppendPolicy_then_DelPolicy p ss :
  (forall v, v ∈ policies ss -> ID v <> ID p) ->
  DelPolicy (Source := Source) (ID p) (AppendPolicy (Source := Source) p ss).1.2
  = (None,
     (if String.eqb (ID p) "stick" then StopRecordingBindHistory else fun st => st)
       (set_policies (Some (policies ss)) ss),
     [])
  /\ (ID p <> "stick" -> policies_val ss <> None ->
      (DelPolicy (Source := Source) (ID p)
         (AppendPolicy (Source := Source) p ss).1.2).1.2 = ss).
Proof.
  intros Hfresh.
  assert (Hdel : DelPolicy (Source := Source) (ID p)
                   (AppendPolicy (Source := Source) p ss).1.2
    = (None,
       (if String.eqb (ID p) "stick" then StopRecordingBindHistory else fun st => st)
         (set_policies (Some (policies ss)) ss),
       [])).
  { rewrite (AppendPolicy_fresh p ss Hfresh). cbn [fst snd].
    rewrite (DelPolicy_present (ID p) _ (policies ss) p []);
      [|by rewrite policies_after_toggle|exact Hfresh|reflexivity].
    rewrite app_nil_r. by destruct (String.eqb (ID p) "stick"). }
  split; [exact Hdel|].
  intros Hp Hval. rewrite Hdel. apply String.eqb_neq in Hp. rewrite Hp. simpl.
  unfold policies. destruct ss as [ps [val|] rec hv]; simpl in *; done.
Qed.

(** X3. Once [DelPolicy(id)] has succeeded on a list without repeated
    identifiers, no policy named [id] is left, and deleting [id] again
    fails with "no ... policy found" and changes nothing, even when the
    list has become empty. *)
Theorem DelPolicy_twice id ss ss' :
  unique_ids ss ->
  DelPolicy (Source := Source) id ss = (None, ss', []) ->
  (forall v, v ∈ policies ss' -> ID v <> id)
  /\ DelPolicy (Source := Source) id ss' = (Some (ErrNoPolicyFound id), ss', []).
Proof.
  intros Huniq Hdel.
  destruct (DelPolicy_cases id ss)
    as [[_ [e Herr]] | (pre & v & post & Hsplit & _ & Hv & Hok)]; [congruence|].
  rewrite Hok in Hdel. injection Hdel as <-.
  unfold unique_ids in Huniq. rewrite Hsplit in Huniq.
  assert (Hgone : forall q, q ∈ pre ++ post -> ID q <> id).
  { intros q Hq. rewrite <- Hv. by apply (unique_ids_split pre v post). }
  split.
  - by rewrite policies_after_toggle.
  - apply (DelPolicy_absent id _ (pre ++ post)); [|exact Hgone].
    by apply policies_val_after_toggle.
Qed.

(** X4. Deleting a policy and appending it again moves it to the end
    of the list, behind the policies that used to follow it. *)
Theorem DelPolicy_then_AppendPolicy pre v post ss :
  unique_ids ss ->
  policies ss = pre ++ v :: post ->
  exists ss1 ss2,
    DelPolicy (Source := Source) (ID v) ss = (None, ss1, [])
    /\ AppendPolicy (Source := Source) v ss1 = (None, ss2, [])
    /\ policies_val ss2 = Some (pre ++ post ++ [v]).
Proof.
  intros Huniq Hsplit. unfold unique_ids in Huniq. rewrite Hsplit in Huniq.
  pose proof (unique_ids_split pre v post Huniq) as Hothers.
  assert (Hpre : forall q, q ∈ pre -> ID q <> ID v).
  { intros q Hq. apply Hothers. apply elem_of_app. by left. }
  rewrite (DelPolicy_present (ID v) ss pre v post Hsplit Hpre eq_refl).
  eexists. eexists. split; [reflexivity|].
  rewrite AppendPolicy_fresh.
  - split; [reflexivity|].
    rewrite policies_val_after_toggle by done.
    rewrite policies_after_toggle by done. by rewrite app_assoc.
  - rewrite policies_after_toggle by done. exact Hothers.
Qed.

(** ** ["stick"] and recording go together *)

Lemma Get_record (R : ResolverT RErr) ctx address (blacklisted : list Source) ss :
  bindHistory_record (Get R ctx address blacklisted ss).1.2 = bindHistory_record ss.
Proof.
  rewrite Get_unfold. cbv zeta.
  destruct (Store_Get ctx _ (protected ss)) as [[s e] ps]. simpl.
  destruct e as [e|]; [reflexivity|].
  destruct s as [s|]; [|reflexivity].
  simpl. by rewrite SaveBindHistory_record.
Qed.

Lemma exec_record (op : Op Source RErr) ss :
  edits_policies op = false -> toggles_recording op = false ->
  bindHistory_record (exec op ss) = bindHistory_record ss.
Proof.
  destruct op; simpl; intros Hedit Htoggle; try reflexivity; try discriminate.
  - apply Get_record.
  - apply SaveBindHistory_record.
Qed.

Lemma has_stick_policies ss1 ss2 :
  policies_val ss1 = policies_val ss2 -> has_stick ss1 = has_stick ss2.
Proof. unfold has_stick, policies. by intros ->. Qed.

Lemma no_stick_among val :
  (forall q, q ∈ val -> ID q <> "stick") ->
  existsb (fun p => String.eqb (ID p) "stick") val = false.
Proof.
  induction val as [|q val IH]; intros Hnone; simpl; [reflexivity|].
  rewrite (proj2 (String.eqb_neq _ _) (Hnone q (list_elem_of_here _ _))).
  apply IH. intros r Hr. apply Hnone. by apply list_elem_of_further.
Qed.

Lemma exec_coupled (op : Op Source RErr) ss :
  toggles_recording op = false ->
  unique_ids ss -> bindHistory_record ss = has_stick ss ->
  bindHistory_record (exec op ss) = has_stick (exec op ss).
Proof.
  intros Htoggle Huniq Hcoupled.
  destruct (edits_policies op) eqn:Hedit.
  - destruct op; try discriminate; simpl.
    + destruct (AppendPolicy_cases p ss) as [-> | [Hfresh ->]]; [exact Hcoupled|].
      unfold has_stick. cbn [fst snd]. rewrite policies_after_toggle by done.
      rewrite existsb_app. simpl. fold (has_stick ss). rewrite <- Hcoupled.
      destruct (String.eqb (ID p) "stick"); simpl.
      * by rewrite orb_true_r.
      * by rewrite !orb_false_r.
    + destruct (DelPolicy_cases id ss)
        as [[_ [e ->]] | (pre & v & post & Hsplit & _ & Hv & ->)];
        [exact Hcoupled|].
      unfold has_stick. cbn [fst snd]. rewrite policies_after_toggle by done.
      unfold unique_ids in Huniq. rewrite Hsplit in Huniq.
      pose proof (unique_ids_split pre v post Huniq) as Hothers.
      destruct (String.eqb_spec id "stick") as [Hid | Hid]; simpl.
      * symmetry. apply no_stick_among. intros q Hq. rewrite <- Hid, <- Hv.
        by apply Hothers.
      * rewrite Hcoupled. unfold has_stick. rewrite Hsplit, !existsb_app. simpl.
        rewrite <- Hv in Hid. apply String.eqb_neq in Hid. by rewrite Hid.
  - rewrite (exec_record op ss Hedit Htoggle), Hcoupled.
    apply has_stick_policies. symmetry. by apply exec_policies.
Qed.

(** X5. As long as [RecordBindHistory] and [StopRecordingBindHistory]
    are not called directly, the store records exactly when a policy
    named ["stick"] is in the list. *)
Theorem stick_presence_is_recording (ops : list (Op Source RErr)) (store : PS) :
  forallb (fun op => negb (toggles_recording op)) ops = true ->
  bindHistory_record (run ops (New store)) = has_stick (run ops (New store)).
Proof.
  assert (Hrun : forall (l : list (Op Source RErr)) ss,
    forallb (fun op => negb (toggles_recording op)) l = true ->
    unique_ids ss -> bindHistory_record ss = has_stick ss ->
    bindHistory_record (run l ss) = has_stick (run l ss)).
  { induction l as [|op l IH]; intros ss Hops Huniq Hcoupled; [exact Hcoupled|].
    simpl in Hops. apply andb_true_iff in Hops as [Hop Hl].
    apply negb_true_iff in Hop.
    apply IH; [exact Hl|by apply exec_unique|by apply exec_coupled]. }
  intros Hops. apply Hrun; [exact Hops|apply NoDup_nil_2|reflexivity].
Qed.

Lemma SaveBindHistory_allocated (R : ResolverT RErr) ctx id address ss :
  bindHistory_record ss = true ->
  is_Some (bindHistory_val (SaveBindHistory (Source := Source) R ctx id address ss).1).
Proof.
  intros Hrec. unfold SaveBindHistory. rewrite Hrec. simpl.
  destruct (ParseIP address).
  - destruct (LookupAddr R ctx address) as [[|h hosts] [e|]]; simpl; try done;
      destruct (LookupHost R ctx h) as [addrs [e|]]; done.
  - destruct (LookupHost R ctx address) as [addrs [e|]]; done.
Qed.

Lemma exec_allocated (op : Op Source RErr) ss :
  (bindHistory_record ss = true -> is_Some (bindHistory_val ss)) ->
  bindHistory_record (exec op ss) = true -> is_Some (bindHistory_val (exec op ss)).
Proof.
  intros Hinv. destruct op; simpl; try exact Hinv.
  - rewrite Get_record, Get_unfold. cbv zeta.
    destruct (Store_Get ctx _ (protected ss)) as [[s e] ps]. simpl.
    destruct e as [e|]; [exact Hinv|].
    destruct s as [s|]; [|exact Hinv].
    simpl. intros Hrec. by apply SaveBindHistory_allocated.
  - rewrite SaveBindHistory_record. by apply SaveBindHistory_allocated.
  - destruct (AppendPolicy_cases p ss) as [-> | [_ ->]]; [exact Hinv|].
    cbn [fst snd]. destruct (String.eqb (ID p) "stick"); [done|exact Hinv].
  - destruct (DelPolicy_cases id ss)
      as [[_ [e ->]] | (pre & v & post & _ & _ & _ & ->)]; [exact Hinv|].
    cbn [fst snd]. destruct (String.eqb id "stick"); [done|exact Hinv].
  - done.
  - done.
Qed.

(** X6. After any sequence of calls on a new store, the bind-history
    map is allocated exactly when the store records; in particular a
    recording step never meets a nil map. *)
Theorem table_allocated_iff_recording (ops : list (Op Source RErr)) (store : PS) :
  bindHistory_record (run ops (New store)) = true
  <-> is_Some (bindHistory_val (run ops (New store))).
Proof.
  split.
  - assert (Hrun : forall (l : list (Op Source RErr)) ss,
      (bindHistory_record ss = true -> is_Some (bindHistory_val ss)) ->
      bindHistory_record (run l ss) = true -> is_Some (bindHistory_val (run l ss))).
    { induction l as [|op l IH]; intros ss Hinv; [exact Hinv|].
      apply IH. by apply exec_allocated. }
    apply Hrun. discriminate.
  - intros [val Hval].
    assert (Hinv : history_inv (run ops (New store))).
    { apply run_inv. intros _. reflexivity. }
    destruct (bindHistory_record (run ops (New store))) eqn:Hrec; [reflexivity|].
    rewrite (Hinv Hrec) in Hval. discriminate.
Qed.

(** ** What [Get] does to the store *)

Lemma QueryBindHistory_set_protected address (ps : PS) ss :
  QueryBindHistory address (set_protected ps ss) = QueryBindHistory address ss.
Proof. reflexivity. Qed.

(** The three ways a recording step can end. *)
Lemma SaveBindHistory_outcome (R : ResolverT RErr) ctx id address ss :
  let ss' := (SaveBindHistory (Source := Source) R ctx id address ss).1 in
  ss' = ss \/ recording_aborted ss ss' \/ exists addrs, recorded id addrs ss ss'.
Proof.
  intros ss'. subst ss'. unfold SaveBindHistory.
  destruct (bindHistory_record ss) eqn:Hrec; simpl; [|by left].
  pose proof (allocate_aborted ss) as Hgave_up. rewrite Hrec in Hgave_up.
  assert (Hbound : forall addrs, recorded id addrs ss
            (set_bindHistory true
               (Some (bind_all id addrs
                        (match bindHistory_val ss with None => ∅ | Some val => val end)))
               ss)).
  { intros addrs. pose proof (bind_all_recorded id addrs ss) as Hb.
    by rewrite Hrec in Hb. }
  destruct (ParseIP address).
  - destruct (LookupAddr R ctx address) as [[|h hosts] [e|]]; simpl;
      try (right; left; exact Hgave_up);
      destruct (LookupHost R ctx h) as [addrs [e|]]; simpl;
      [right; left; exact Hgave_up|right; right; exists addrs; apply Hbound].
  - destruct (LookupHost R ctx address) as [addrs [e|]]; simpl;
      [right; left; exact Hgave_up|right; right; exists addrs; apply Hbound].
Qed.

Lemma SaveBindHistory_query (R : ResolverT RErr) ctx id address ss v :
  let ss' := (SaveBindHistory (Source := Source) R ctx id address ss).1 in
  QueryBindHistory v ss' = QueryBindHistory v ss
  \/ QueryBindHistory v ss' = (id, true).
Proof.
  intros ss'.
  pose proof (SaveBindHistory_outcome R ctx id address ss) as Hout.
  cbv zeta in Hout. fold ss' in Hout.
  destruct Hout as [Hsame | [Hgave_up | [addrs Hbound]]].
  - left. by rewrite Hsame.
  - left. apply Hgave_up.
  - destruct Hbound as (_ & _ & Hin & Hout).
    destruct (decide (v ∈ addrs)) as [Hv | Hv]; [right; by apply Hin|left; by apply Hout].
Qed.

Lemma SaveBindHistory_trace (R : ResolverT RErr) ctx id address ss :
  recording_trace ctx address
    (SaveBindHistory (Source := Source) R ctx id address ss).2.
Proof.
  unfold SaveBindHistory, recording_trace.
  destruct (bindHistory_record ss); simpl; [|by left].
  destruct (ParseIP address).
  - destruct (LookupAddr R ctx address) as [[|h hosts] [e|]]; simpl;
      try (right; left; reflexivity);
      destruct (LookupHost R ctx h) as [addrs [e|]]; simpl;
      right; right; right; by exists h.
  - destruct (LookupHost R ctx address) as [addrs [e|]]; simpl;
      right; right; left; reflexivity.
Qed.

Lemma ShouldAccept_sweep id address ss :
  forallb is_sweep_event (ShouldAccept (Source := Source) id address ss).2 = true.
Proof.
  unfold ShouldAccept. destruct (policies_val ss) as [val|]; [|reflexivity].
  simpl. induction val as [|p val IH]; simpl; [reflexivity|].
  destruct (Accept p id (TrimPort address)); simpl; [|reflexivity].
  destruct (ShouldAccept_range id (TrimPort address) val) as [r evs]. exact IH.
Qed.

Lemma MakeBlacklist_sweep_events address ss :
  forallb is_sweep_event (MakeBlacklist address ss).2 = true.
Proof.
  unfold MakeBlacklist, Len, Do.
  destruct (Nat.eqb (length (policies ss)) 0); [reflexivity|].
  assert (Hsweep : forall (srcs acc : list Source) evs,
    forallb is_sweep_event evs = true ->
    forallb is_sweep_event
      (fold_left (fun st src => MakeBlacklist_visit (TrimPort address) ss src st)
         srcs (acc, evs)).2 = true).
  { induction srcs as [|src srcs IH]; intros acc evs Hevs; [exact Hevs|].
    cbn [fold_left]. unfold MakeBlacklist_visit at 2.
    pose proof (ShouldAccept_sweep (SourceID src) (TrimPort address) ss) as He.
    destruct (ShouldAccept (SourceID src) (TrimPort address) ss) as [[ok culprit] e].
    simpl in He.
    destruct ok; simpl; apply IH; rewrite forallb_app, Hevs, He; reflexivity. }
  specialize (Hsweep (Store_Do (protected ss)) [] [] eq_refl).
  destruct (fold_left _ _ _) as [acc evs]. exact Hsweep.
Qed.

(** X7. [Get] never changes the policy list nor the recording flag;
    while the store does not record it leaves the bind history alone
    and looks nothing up. *)
Theorem Get_frame (R : ResolverT RErr) ctx address (blacklisted : list Source) ss :
  let out := Get R ctx address blacklisted ss in
  policies_val out.1.2 = policies_val ss
  /\ bindHistory_record out.1.2 = bindHistory_record ss
  /\ (bindHistory_record ss = false ->
      bindHistory_val out.1.2 = bindHistory_val ss
      /\ forallb (fun e => negb (is_lookup e)) out.2 = true).
Proof.
  intros out. subst out.
  split; [apply Get_policies|]. split; [apply Get_record|].
  intros Hoff. rewrite Get_unfold. cbv zeta.
  assert (Hsweep : forallb (fun e => negb (is_lookup e))
            ((MakeBlacklist (TrimPort address) ss).2
             ++ [EvGet ctx (blacklisted ++ (MakeBlacklist (TrimPort address) ss).1)])
          = true).
  { rewrite forallb_app. simpl. rewrite andb_true_r.
    pose proof (MakeBlacklist_sweep_events (TrimPort address) ss) as Hev.
    rewrite forallb_forall in *. intros e He. specialize (Hev e He).
    by destruct e. }
  destruct (Store_Get ctx _ (protected ss)) as [[s e] ps]. simpl.
  destruct e as [e|]; [by split|].
  destruct s as [s|]; [|by split].
  simpl. rewrite SaveBindHistory_off by exact Hoff. simpl.
  split; [reflexivity|]. by rewrite app_nil_r.
Qed.

(** X8. [Get] never drops a binding: for every address, the bind
    history answers after the call as it did before, or it answers
    with the source the call has just returned. *)
Theorem Get_keeps_bindings (R : ResolverT RErr) ctx address
    (blacklisted : list Source) ss v :
  let out := Get R ctx address blacklisted ss in
  QueryBindHistory v out.1.2 = QueryBindHistory v ss
  \/ (exists s, out.1.1 = Returned (Some s) None
        /\ QueryBindHistory v out.1.2 = (SourceID s, true)).
Proof.
  intros out. subst out. rewrite Get_unfold. cbv zeta.
  destruct (Store_Get ctx _ (protected ss)) as [[s e] ps]. simpl.
  destruct e as [e|]; [by left|].
  destruct s as [s|]; [|by left].
  simpl.
  destruct (SaveBindHistory_query R (WithTimeout ctx Second) (SourceID s)
              (TrimPort address) (set_protected ps ss) v) as [Hsame | Hnew].
  - left. exact Hsame.
  - right. by exists s.
Qed.

(** X9. With recording on, once [Get] has returned a source, every
    address the resolver gives for the requested host is bound to that
    source: the host is the port-stripped address itself, or, for a
    literal IP address, the first name its reverse lookup yields. *)
Theorem Get_binds_resolved_addresses (R : ResolverT RErr) ctx address
    (blacklisted : list Source) ss (s : Source) (ps : PS) host addrs :
  let a := TrimPort address in
  let bl := blacklisted ++ (MakeBlacklist a ss).1 in
  let budget := WithTimeout ctx Second in
  bindHistory_record ss = true ->
  Store_Get ctx bl (protected ss) = ((Some s, None), ps) ->
  (ParseIP a = false /\ host = a
   \/ ParseIP a = true /\ exists hosts, LookupAddr R budget a = (host :: hosts, None)) ->
  LookupHost R budget host = (addrs, None) ->
  forall v, v ∈ addrs ->
    QueryBindHistory v (Get R ctx address blacklisted ss).1.2 = (SourceID s, true).
Proof.
  intros a bl budget Hrec Hanswer Hhost Hforward v Hv.
  rewrite Get_unfold. cbv zeta. fold a. fold bl. rewrite Hanswer. simpl.
  assert (Hevs : exists evs,
    (if ParseIP a then
       let '(hosts, err) := LookupAddr R budget a in
       match err with
       | Some _ => (None, [EvLookupAddr (Source := Source) budget a])
       | None =>
           match hosts with
           | [] => (None, [EvLookupAddr budget a])
           | h :: _ => (Some h, [EvLookupAddr budget a])
           end
       end
     else (Some a, [])) = (Some host, evs)).
  { destruct Hhost as [[Hip ->] | [Hip [hosts Hreverse]]]; rewrite Hip.
    - by eexists.
    - rewrite Hreverse. by eexists. }
  destruct Hevs as [evs Hevs].
  destruct (SaveBindHistory_forward R budget (SourceID s) a (set_protected ps ss)
              host evs Hrec Hevs) as [_ Hbound].
  destruct (Hbound addrs Hforward) as [(_ & _ & Hin & _) _].
  by apply Hin.
Qed.

(** X10. [Get] panics exactly when the protected storage answers with
    a nil source and a nil error; nothing is recorded then. *)
Theorem Get_panics_on_nil_source (R : ResolverT RErr) ctx address
    (blacklisted : list Source) ss :
  let bl := blacklisted ++ (MakeBlacklist (TrimPort address) ss).1 in
  let answer := Store_Get ctx bl (protected ss) in
  let out := Get R ctx address blacklisted ss in
  (out.1.1 = Panicked <-> answer.1 = (None, None))
  /\ (answer.1 = (None, None) ->
      out.1.2 = set_protected answer.2 ss
      /\ out.2 = (MakeBlacklist (TrimPort address) ss).2 ++ [EvGet ctx bl]).
Proof.
  intros bl answer out. subst out. rewrite Get_unfold. cbv zeta.
  fold bl. fold answer. destruct answer as [[s e] ps]. simpl.
  destruct e as [e|]; [|destruct s as [s|]]; simpl.
  - split; [split; intros; discriminate|intros; discriminate].
  - split; [split; intros; discriminate|intros; discriminate].
  - split; [by split|]. intros _. by split.
Qed.

(** X11. What a call of [Get] does outside the store, in order: the
    calls of the blacklist sweep, then one call of the protected
    storage's [Get], given the caller's blacklist followed by the
    policy blacklist, then at most one reverse and one forward lookup,
    issued for the port-stripped address under the one-second context.
    It calls neither [Put] nor [Del], and nothing twice. *)
Theorem Get_trace (R : ResolverT RErr) ctx address (blacklisted : list Source) ss :
  exists sweep recording,
    (Get R ctx address blacklisted ss).2
    = sweep
      ++ [EvGet ctx (blacklisted ++ (MakeBlacklist (TrimPort address) ss).1)]
      ++ recording
    /\ forallb is_sweep_event sweep = true
    /\ recording_trace (WithTimeout ctx Second) (TrimPort address) recording.
Proof.
  exists (MakeBlacklist (TrimPort address) ss).2.
  rewrite Get_unfold. cbv zeta.
  destruct (Store_Get ctx _ (protected ss)) as [[s e] ps]. simpl.
  assert (Hnone : recording_trace (Source := Source) (WithTimeout ctx Second)
                    (TrimPort address) []) by (by left).
  destruct e as [e|]; [|destruct s as [s|]]; simpl.
  - exists []. split; [reflexivity|].
    split; [apply MakeBlacklist_sweep_events|exact Hnone].
  - eexists. split; [by rewrite <- app_assoc|].
    split; [apply MakeBlacklist_sweep_events|apply SaveBindHistory_trace].
  - exists []. split; [reflexivity|].
    split; [apply MakeBlacklist_sweep_events|exact Hnone].
Qed.

(** X12. Without policies [Get] does not enumerate the sources: it
    calls [Len], hands the caller's blacklist to the protected storage
    as it is, and answers what the storage answers. *)
Theorem Get_without_policies (R : ResolverT RErr) ctx address
    (blacklisted : list Source) ss :
  policies ss = [] ->
  let answer := Store_Get ctx blacklisted (protected ss) in
  let out := Get R ctx address blacklisted ss in
  (exists recording,
     out.2 = [EvLen; EvGet ctx blacklisted] ++ recording
     /\ recording_trace (WithTimeout ctx Second) (TrimPort address) recording)
  /\ out.1.1 = match answer.1 with
               | (None, None) => Panicked
               | (osrc, oerr) => Returned osrc oerr
               end
  /\ protected out.1.2 = answer.2.
Proof.
  intros Hnil answer out. subst out. rewrite Get_unfold. cbv zeta.
  rewrite (MakeBlacklist_no_policy (TrimPort address) ss Hnil). simpl.
  rewrite app_nil_r. fold answer. destruct answer as [[s e] ps]. simpl.
  assert (Hnone : recording_trace (Source := Source) (WithTimeout ctx Second)
                    (TrimPort address) []) by (by left).
  destruct e as [e|]; [|destruct s as [s|]]; simpl.
  - split; [by exists []|]. by destruct s.
  - split; [|split; [reflexivity|apply SaveBindHistory_policies]].
    eexists. split; [reflexivity|apply SaveBindHistory_trace].
  - split; [by exists []|]. by split.
Qed.

(** ** The blacklist sweep *)

Lemma filter_sublist {A : Type} (f : A -> bool) (l : list A) :
  List.filter f l `sublist_of` l.
Proof.
  induction l as [|x l IH]; simpl; [constructor|].
  destruct (f x); by constructor.
Qed.

(** X13. [MakeBlacklist(address)] holds a source exactly when the
    protected storage enumerates it and [ShouldAccept] turns it down
    for the port-stripped address; the sources come in enumeration
    order, so there are never more of them than the storage holds. *)
Theorem MakeBlacklist_agrees_with_ShouldAccept address ss :
  (forall src,
     src ∈ (MakeBlacklist address ss).1
     <-> src ∈ Store_Do (protected ss)
         /\ (ShouldAccept (Source := Source) (SourceID src) (TrimPort address) ss).1.1
            = false)
  /\ (MakeBlacklist address ss).1 `sublist_of` Store_Do (protected ss)
  /\ (length (MakeBlacklist address ss).1 <= length (Store_Do (protected ss)))%nat.
Proof.
  rewrite MakeBlacklist_sources. unfold policy_forbidden.
  split; [|split].
  - intros src.
    rewrite list_elem_of_In, filter_In, <- list_elem_of_In.
    rewrite rejected_not_accepted, ShouldAccept_ok, negb_true_iff.
    reflexivity.
  - apply filter_sublist.
  - apply sublist_length, filter_sublist.
Qed.

Lemma ShouldAccept_cost id address ss :
  (length (ShouldAccept (Source := Source) id address ss).2
   <= length (policies ss))%nat.
Proof.
  unfold ShouldAccept, policies.
  destruct (policies_val ss) as [val|]; simpl; [|lia].
  induction val as [|p val IH]; simpl; [lia|].
  destruct (Accept p id (TrimPort address)); simpl; [|lia].
  destruct (ShouldAccept_range id (TrimPort address) val) as [r evs].
  simpl in *. lia.
Qed.

(** X14. A blacklist sweep calls [Len] once, [Do] at most once, and
    [Accept] at most once per pair of a source and a policy. *)
Theorem MakeBlacklist_cost address ss :
  (length (MakeBlacklist address ss).2
   <= 2 + length (Store_Do (protected ss)) * length (policies ss))%nat.
Proof.
  unfold MakeBlacklist, Len, Do.
  destruct (Nat.eqb (length (policies ss)) 0); [simpl; lia|].
  assert (Hsweep : forall (srcs acc : list Source) evs,
    (length (fold_left
               (fun st src => MakeBlacklist_visit (TrimPort address) ss src st)
               srcs (acc, evs)).2
     <= length evs + length srcs * length (policies ss))%nat).
  { induction srcs as [|src srcs IH]; intros acc evs; [simpl; lia|].
    cbn [fold_left]. unfold MakeBlacklist_visit at 2.
    pose proof (ShouldAccept_cost (SourceID src) (TrimPort address) ss) as He.
    destruct (ShouldAccept (SourceID src) (TrimPort address) ss) as [[ok culprit] e].
    simpl in He.
    destruct ok; simpl;
      match goal with
      | |- (length (fold_left _ _ (?a, ?l)).2 <= _)%nat =>
          specialize (IH a l); rewrite length_app in IH; lia
      end. }
  specialize (Hsweep (Store_Do (protected ss)) [] []).
  destruct (fold_left _ _ _) as [acc evs]. simpl in *. lia.
Qed.

Lemma policy_forbidden_mono address ss1 ss2 :
  protected ss1 = protected ss2 ->
  (forall p, p ∈ policies ss1 -> p ∈ policies ss2) ->
  forall src, src ∈ policy_forbidden address ss1 -> src ∈ policy_forbidden address ss2.
Proof.
  intros Hstore Hsub src. unfold policy_forbidden. rewrite Hstore.
  rewrite !list_elem_of_In, !filter_In, <- !list_elem_of_In, !rejected_iff.
  intros [Hin (p & Hp & Hrej)]. split; [exact Hin|].
  exists p. split; [by apply Hsub|exact Hrej].
Qed.

Lemma protected_after_toggle (toggle : bool)
    (f : SourceStore PS -> SourceStore PS) (v : option (list Policy)) ss :
  (forall st, protected (f st) = protected st) ->
  protected ((if toggle then f else fun st => st) (set_policies v ss)) = protected ss.
Proof. intros Hf. destruct toggle; [by rewrite Hf|done]. Qed.

Lemma ShouldAccept_range_extend id address val more c
    (evs : list (Event Source)) :
  ShouldAccept_range id address val = ((false, c), evs) ->
  ShouldAccept_range id address (val ++ more) = ((false, c), evs).
Proof.
  revert evs. induction val as [|p val IH]; intros evs; simpl; [discriminate|].
  destruct (Accept p id address); simpl; [|done].
  destruct (ShouldAccept_range id address val) as [r evs0] eqn:Hrange.
  intros [= -> <-]. by rewrite (IH evs0 eq_refl).
Qed.

(** X15. Appending a policy only adds restrictions: a pair that
    [ShouldAccept] turned down is still turned down, by the same
    policy and after the same calls, and every source that was on the
    policy blacklist of an address stays on it. *)
Theorem AppendPolicy_only_restricts p address ss :
  let ss' := (AppendPolicy (Source := Source) p ss).1.2 in
  (forall id c evs,
     ShouldAccept (Source := Source) id address ss = ((false, c), evs) ->
     ShouldAccept (Source := Source) id address ss' = ((false, c), evs))
  /\ (forall src,
        src ∈ (MakeBlacklist address ss).1 -> src ∈ (MakeBlacklist address ss').1).
Proof.
  intros ss'. subst ss'.
  destruct (AppendPolicy_cases p ss) as [-> | [_ ->]]; [by split|].
  cbn [fst snd]. split.
  - intros id c evs. rewrite !ShouldAccept_policies.
    rewrite policies_val_after_toggle, policies_after_toggle by done.
    destruct (policies_val ss) as [val|]; [|discriminate].
    apply ShouldAccept_range_extend.
  - intros src. rewrite !MakeBlacklist_sources.
    apply policy_forbidden_mono.
    + symmetry. by apply protected_after_toggle.
    + intros q Hq. rewrite policies_after_toggle by done.
      apply elem_of_app. by left.
Qed.

(** X16. Deleting a policy only lifts restrictions: every source on
    the policy blacklist of an address afterwards was on it before. *)
Theorem DelPolicy_only_relaxes id address ss :
  let ss' := (DelPolicy (Source := Source) id ss).1.2 in
  forall src,
    src ∈ (MakeBlacklist address ss').1 -> src ∈ (MakeBlacklist address ss).1.
Proof.
  intros ss'. subst ss'.
  destruct (DelPolicy_cases id ss)
    as [[_ [e ->]] | (pre & v & post & Hsplit & _ & _ & ->)]; [done|].
  cbn [fst snd]. intros src. rewrite !MakeBlacklist_sources.
  apply policy_forbidden_mono.
  - by apply protected_after_toggle.
  - intros q. rewrite policies_after_toggle by done. rewrite Hsplit.
    rewrite !elem_of_app, elem_of_cons. tauto.
Qed.

(** ** Snapshots *)

Lemma GetSourcesSnapshot_sweep (srcs : list Source) (acc : list DummySource) :
  fold_left (fun acc src => GetSourcesSnapshot_visit src acc) srcs acc
  = acc ++ map (fun src => MkDummySource (SourceID src)) srcs.
Proof.
  revert acc. induction srcs as [|src srcs IH]; intros acc; simpl.
  - by rewrite app_nil_r.
  - rewrite IH. unfold GetSourcesSnapshot_visit. by rewrite <- app_assoc.
Qed.

(** X17. [GetSourcesSnapshot] lists the identifier of each source the
    protected storage enumerates, once per visit and in enumeration
    order, after one call of [Len] and one of [Do].  Hence a source
    the storage enumerates after [Put] shows in the next snapshot, and
    every entry of the snapshot taken after [Del] is a source the
    storage still enumerates. *)
Theorem GetSourcesSnapshot_lists_sources ss :
  GetSourcesSnapshot ss
  = (map (fun src => MkDummySource (SourceID src)) (Store_Do (protected ss)),
     [EvLen; EvDo])
  /\ (forall (sources : list Source) x,
        x ∈ Store_Do (Store_Put sources (protected ss)) ->
        MkDummySource (SourceID x) ∈ (GetSourcesSnapshot (Put sources ss).1).1)
  /\ (forall (sources : list Source) d,
        d ∈ (GetSourcesSnapshot (Del sources ss).1).1 ->
        exists x, x ∈ Store_Do (Store_Del sources (protected ss))
                  /\ DummySource_ID d = SourceID x).
Proof.
  assert (Hsnap : forall st : SourceStore PS,
    (GetSourcesSnapshot st).1
    = map (fun src => MkDummySource (SourceID src)) (Store_Do (protected st))).
  { intros st. unfold GetSourcesSnapshot. simpl. by rewrite GetSourcesSnapshot_sweep. }
  split; [|split].
  - unfold GetSourcesSnapshot. by rewrite GetSourcesSnapshot_sweep.
  - intros sources x Hx. rewrite Hsnap. simpl.
    by apply (list_elem_of_fmap_2 (fun src => MkDummySource (SourceID src))).
  - intros sources d Hd. rewrite Hsnap in Hd. simpl in Hd.
    apply list_elem_of_fmap in Hd as (x & -> & Hx). by exists x.
Qed.

End Lifecycle.

(** * The further properties on the sample collaborators *)

Lemma layered_store_unique : unique_ids layered_store.
Proof.
  unfold unique_ids.
  change (map ID (policies layered_store)) with ["allow"; "block"; "stick"].
  apply (bool_decide_unpack _). vm_compute. exact I.
Qed.

Lemma policy_ids_stay_unique_witness :
  unique_ids (exec (RErr := string) (OpAppendPolicy block_policy) layered_store)
  /\ unique_ids
       (run (RErr := string)
          [OpAppendPolicy block_policy; OpAppendPolicy block_policy;
           OpDelPolicy "block"; OpAppendPolicy stick_policy]
          (New ["A"; "B"])).
Proof.
  destruct (@policy_ids_stay_unique string string string (list string) _ _ _)
    as (_ & Hstep & Hrun).
  split.
  - apply Hstep. exact layered_store_unique.
  - apply Hrun.
Defined.

Lemma AppendPolicy_then_DelPolicy_witness :
  (DelPolicy (Source := string) "block"
     (AppendPolicy (Source := string) block_policy sticky_store).1.2).1.2
  = sticky_store.
Proof.
  destruct (AppendPolicy_then_DelPolicy (Source := string) block_policy sticky_store)
    as [_ Hback].
  - intros v Hv. change (policies sticky_store) with [stick_policy] in Hv.
    apply list_elem_of_singleton in Hv. subst v. discriminate.
  - apply Hback; discriminate.
Defined.

Lemma DelPolicy_twice_witness :
  let ss' := (DelPolicy (Source := string) "block" layered_store).1.2 in
  (forall v, v ∈ policies ss' -> ID v <> "block")
  /\ DelPolicy (Source := string) "block" ss' = (Some (ErrNoPolicyFound "block"), ss', []).
Proof.
  exact (DelPolicy_twice (Source := string) "block" layered_store _
           layered_store_unique eq_refl).
Defined.

Lemma DelPolicy_then_AppendPolicy_witness :
  exists ss1 ss2,
    DelPolicy (Source := string) "block" layered_store = (None, ss1, [])
    /\ AppendPolicy (Source := string) block_policy ss1 = (None, ss2, [])
    /\ policies_val ss2 = Some [allow_policy; stick_policy; block_policy].
Proof.
  exact (DelPolicy_then_AppendPolicy (Source := string)
           [allow_policy] block_policy [stick_policy] layered_store
           layered_store_unique eq_refl).
Defined.

Lemma stick_presence_is_recording_witness :
  let ops := [OpAppendPolicy block_policy; OpAppendPolicy stick_policy;
              OpGet sample_resolver background "svc.example:443" [];
              OpDelPolicy "block"] in
  bindHistory_record (run ops (New ["A"; "B"])) = true
  /\ has_stick (run ops (New ["A"; "B"])) = true.
Proof.
  intros ops.
  pose proof (stick_presence_is_recording ops ["A"; "B"] eq_refl) as Hcoupled.
  split; [reflexivity|]. rewrite <- Hcoupled. reflexivity.
Defined.

Lemma table_allocated_iff_recording_witness :
  is_Some (bindHistory_val
             (run (RErr := string) [OpAppendPolicy stick_policy] (New ["A"; "B"]))).
Proof.
  apply (proj1 (table_allocated_iff_recording (RErr := string)
                  [OpAppendPolicy stick_policy] ["A"; "B"])).
  reflexivity.
Defined.

Lemma Get_frame_witness :
  let out := Get sample_resolver background "bank.example:443" [] bank_store in
  policies_val out.1.2 = Some [block_policy]
  /\ bindHistory_record out.1.2 = false
  /\ bindHistory_val out.1.2 = None
  /\ forallb (fun e => negb (is_lookup e)) out.2 = true.
Proof.
  intros out.
  pose proof (Get_frame sample_resolver background "bank.example:443" []
                bank_store) as Hframe.
  cbv zeta in Hframe. destruct Hframe as (Hpol & Hrec & Hoff).
  split; [exact Hpol|]. split; [exact Hrec|]. exact (Hoff eq_refl).
Defined.

Lemma Get_keeps_bindings_witness :
  let out := Get sample_resolver background "svc.example:443" [] sticky_store in
  QueryBindHistory "10.0.0.1" out.1.2 = QueryBindHistory "10.0.0.1" sticky_store
  \/ (exists s, out.1.1 = Returned (Some s) None
        /\ QueryBindHistory "10.0.0.1" out.1.2 = (s, true)).
Proof.
  exact (Get_keeps_bindings sample_resolver background "svc.example:443" []
           sticky_store "10.0.0.1").
Defined.

Lemma Get_binds_resolved_addresses_witness :
  (forall v, v ∈ ["10.0.0.1"; "10.0.0.2"] ->
     QueryBindHistory v
       (Get sample_resolver background "svc.example:443" [] sticky_store).1.2
     = ("A", true))
  /\ (forall v, v ∈ ["10.0.0.1"; "10.0.0.2"] ->
     QueryBindHistory v
       (Get sample_resolver background "10.0.0.1:443" [] sticky_store).1.2
     = ("A", true)).
Proof.
  split; intros v Hv.
  - exact (Get_binds_resolved_addresses sample_resolver background
             "svc.example:443" [] sticky_store "A" ["A"; "B"] "svc.example"
             ["10.0.0.1"; "10.0.0.2"] eq_refl eq_refl
             (or_introl (conj eq_refl eq_refl)) eq_refl v Hv).
  - exact (Get_binds_resolved_addresses sample_resolver background
             "10.0.0.1:443" [] sticky_store "A" ["A"; "B"] "svc.example"
             ["10.0.0.1"; "10.0.0.2"] eq_refl eq_refl
             (or_intror (conj eq_refl (ex_intro _ [] eq_refl))) eq_refl v Hv).
Defined.

Lemma Get_panics_on_nil_source_witness :
  (Get (Source := string) (Err := string) sample_resolver background
     "svc.example:443" [] (New tt)).1.1 = Panicked.
Proof.
  pose proof (Get_panics_on_nil_source (Source := string) (Err := string)
                sample_resolver background "svc.example:443" [] (New tt)) as Hpanic.
  cbv zeta in Hpanic. destruct Hpanic as [Hiff _].
  apply Hiff. reflexivity.
Defined.

Lemma Get_trace_witness :
  exists sweep recording,
    (Get sample_resolver background "10.0.0.1:443" ["B"] sticky_store).2
    = sweep ++ [EvGet background ["B"]] ++ recording
    /\ forallb is_sweep_event sweep = true
    /\ recording_trace (WithTimeout background Second) "10.0.0.1" recording.
Proof.
  exact (Get_trace sample_resolver background "10.0.0.1:443" ["B"] sticky_store).
Defined.

Lemma Get_without_policies_witness :
  let out := Get sample_resolver background "svc.example:443" ["A"] fresh_store in
  (exists recording,
     out.2 = [EvLen; EvGet background ["A"]] ++ recording
     /\ recording_trace (WithTimeout background Second) "svc.example" recording)
  /\ out.1.1 = Returned (Some "B") None
  /\ protected out.1.2 = ["A"; "B"].
Proof.
  exact (Get_without_policies sample_resolver background "svc.example:443" ["A"]
           fresh_store eq_refl).
Defined.

Lemma MakeBlacklist_agrees_with_ShouldAccept_witness :
  "A" ∈ (MakeBlacklist "bank.example:443" bank_store).1.
Proof.
  destruct (MakeBlacklist_agrees_with_ShouldAccept "bank.example:443" bank_store)
    as [Hiff _].
  apply Hiff. split; [apply list_elem_of_here|reflexivity].
Defined.

Lemma MakeBlacklist_cost_witness :
  (length (MakeBlacklist "bank.example:443" layered_store).2 <= 2 + 2 * 3)%nat.
Proof.
  exact (MakeBlacklist_cost "bank.example:443" layered_store).
Defined.

Lemma AppendPolicy_only_restricts_witness :
  let ss' := (AppendPolicy (Source := string) stick_policy bank_store).1.2 in
  ShouldAccept (Source := string) "A" "bank.example:443" ss'
  = ((false, Some block_policy), [EvAccept block_policy "A" "bank.example"])
  /\ "A" ∈ (MakeBlacklist "bank.example:443" ss').1.
Proof.
  intros ss'.
  pose proof (AppendPolicy_only_restricts (Source := string) stick_policy
                "bank.example:443" bank_store) as Hmono.
  cbv zeta in Hmono. destruct Hmono as [Hculprit Hlist].
  split.
  - apply Hculprit. reflexivity.
  - apply Hlist. apply list_elem_of_here.
Defined.

Lemma DelPolicy_only_relaxes_witness :
  "A" ∈ (MakeBlacklist "bank.example:443" layered_store).1.
Proof.
  apply (DelPolicy_only_relaxes (Source := string) "allow" "bank.example:443"
           layered_store).
  apply list_elem_of_here.
Defined.

Lemma GetSourcesSnapshot_lists_sources_witness :
  MkDummySource "C" ∈ (GetSourcesSnapshot (Put ["C"] fresh_store).1).1
  /\ (forall d, d ∈ (GetSourcesSnapshot (Del ["A"] fresh_store).1).1 ->
        exists x, x ∈ ["B"] /\ DummySource_ID d = x).
Proof.
  destruct (GetSourcesSnapshot_lists_sources fresh_store) as (_ & Hput & Hdel).
  split.
  - apply (Hput ["C"] "C"). change ("C" ∈ ["A"; "B"; "C"]).
    do 2 apply list_elem_of_further. apply list_elem_of_here.
  - exact (Hdel ["A"]).
Defined.
